(** * cyberdrop_dl.client.downloaders: a shallow embedding

    The module [cyberdrop_dl/client/downloaders.py] holds the retry
    decorator, the [Downloader] class (per-album orchestration of the
    link pipeline) and the [get_downloaders] factory.  Each Python
    function is embedded below under its own name.  Mutable state
    (the lock table, the ledger, the files of the album folder, the
    attempt counters) is threaded through a state-and-exception monad;
    the transfer session is an oracle the development quantifies over. *)

From Stdlib Require Import ZArith Lia Ascii.
From stdpp Require Import base option list gmap sets strings pretty.

Local Open Scope Z_scope.

(** ** Python string operations *)

Module Str.

(** [needle in hay]. *)
Fixpoint contains (needle hay : string) : bool :=
  String.prefix needle hay ||
  match hay with
  | EmptyString => false
  | String _ rest => contains needle rest
  end.

(** [s.split(sep)] for a one-character separator: never the empty list. *)
Fixpoint split (sep : ascii) (s : string) : list string :=
  match s with
  | EmptyString => [EmptyString]
  | String c rest =>
      if Ascii.eqb c sep then EmptyString :: split sep rest
      else match split sep rest with
           | [] => [String c EmptyString]
           | piece :: pieces => String c piece :: pieces
           end
  end.

(** [s.split(sep)[-1]]. *)
Definition last_piece (sep : ascii) (s : string) : string :=
  List.last (split sep s) EmptyString.

(** [sep.join(pieces)]. *)
Fixpoint join (sep : string) (pieces : list string) : string :=
  match pieces with
  | [] => EmptyString
  | [p] => p
  | p :: ps => p +:+ sep +:+ join sep ps
  end.

(** [s.split(sep)[0]] for a separator string: the text before the first
    occurrence of [sep], all of [s] when there is none. *)
Fixpoint before_first (sep s : string) : string :=
  if String.prefix sep s then EmptyString
  else match s with
       | EmptyString => EmptyString
       | String c rest => String c (before_first sep rest)
       end.

(** [s[n:]]. *)
Fixpoint drop (n : nat) (s : string) : string :=
  match n, s with
  | O, _ => s
  | S _, EmptyString => EmptyString
  | S k, String _ rest => drop k rest
  end.

(** [s[:n]]. *)
Fixpoint take (n : nat) (s : string) : string :=
  match n, s with
  | O, _ => EmptyString
  | S _, EmptyString => EmptyString
  | S k, String c rest => String c (take k rest)
  end.

(** The text after the first occurrence of [sep], if there is one. *)
Fixpoint after_first (sep s : string) : option string :=
  if String.prefix sep s then Some (drop (String.length sep) s)
  else match s with
       | EmptyString => None
       | String _ rest => after_first sep rest
       end.

(** [s.replace(old, new)] for a non-empty [old]: the occurrences are
    found left to right and do not overlap.  [skip] counts the
    characters of a matched occurrence that are still to be passed. *)
Fixpoint replace_from (old new : string) (skip : nat) (s : string) : string :=
  match s with
  | EmptyString => EmptyString
  | String c rest =>
      match skip with
      | S k => replace_from old new k rest
      | O =>
          if String.prefix old s
          then new +:+ replace_from old new (Nat.pred (String.length old)) rest
          else String c (replace_from old new O rest)
      end
  end.

Definition replace (old new s : string) : string := replace_from old new O s.

(** [c.lower()] on an ASCII letter; other characters are kept. *)
Definition lower_ascii (c : ascii) : ascii :=
  let n := Ascii.nat_of_ascii c in
  if (Nat.leb 65 n && Nat.leb n 90)%bool then Ascii.ascii_of_nat (n + 32) else c.

(** [s.lower()]. *)
Fixpoint lower (s : string) : string :=
  match s with
  | EmptyString => EmptyString
  | String c rest => String (lower_ascii c) (lower rest)
  end.

(** [x in xs] for a collection of strings. *)
Definition mem (x : string) (xs : list string) : bool := bool_decide (x ∈ xs).

(** [lst.pop(i)], keeping the remaining list: [None] is Python's
    [IndexError]. *)
Definition pop {A} (i : nat) (l : list A) : option (list A) :=
  if decide (i < length l)%nat then Some (delete i l) else None.

End Str.

(** ** pathlib names

    Every file of one album lives in [folder / title]; a file is named
    by its last path component, a non-empty name without a slash.  [suffix], [stem] and [with_suffix]
    follow [pathlib.PurePath]: with [i] the index of the last dot of
    the name, the suffix is [name[i:]] when [0 < i < len(name) - 1] and
    empty otherwise. *)

Module Path.

Definition has_suffix (name : string) : bool :=
  let pieces := Str.split "."%char name in
  (bool_decide (2 ≤ length pieces)%nat
   && negb (String.eqb (Str.join "." (removelast pieces)) "")
   && negb (String.eqb (Str.last_piece "."%char name) ""))%bool.

Definition stem (name : string) : string :=
  if has_suffix name then Str.join "." (removelast (Str.split "."%char name)) else name.

Definition suffix (name : string) : string :=
  if has_suffix name then "." +:+ Str.last_piece "."%char name else "".

Definition with_suffix (name new_suffix : string) : string :=
  stem name +:+ new_suffix.

End Path.

(** ** yarl URLs

    A URL is kept in its parsed form; [url_str] prints it and
    [URL_of_str] parses it back.  Only absolute [scheme://host/path]
    URLs are modelled (no port, user, query or fragment). *)

Record URL := mkURL { scheme : string; host : string; path : string }.

#[global] Instance URL_eq_dec : EqDecision URL.
Proof. solve_decision. Defined.

(** [str(url)]. *)
Definition url_str (u : URL) : string := scheme u +:+ "://" +:+ host u +:+ path u.

(** [url.name]: the last segment of the path. *)
Definition url_name (u : URL) : string := Str.last_piece "/"%char (path u).

(** [url.with_host(h)]. *)
Definition with_host (u : URL) (h : string) : URL := mkURL (scheme u) h (path u).

(** [URL(s)]. *)
Definition URL_of_str (s : string) : URL :=
  let rest := default "" (Str.after_first "://" s) in
  mkURL (Str.before_first "://" s)
        (Str.before_first "/" rest)
        (Str.drop (String.length (Str.before_first "/" rest)) rest).

(** ** Exceptions *)

(** [FailureException] is the tool's own recoverable-failure signal and
    carries a [code].  [ClientError] stands for the five transport
    exceptions that [download_file] catches beside it
    ([ClientPayloadError], [ClientOSError], [ServerDisconnectedError],
    [asyncio.TimeoutError], [ClientResponseError]), with the value of
    its [code] attribute when it has one.  [OtherError] is any exception
    that no [except] clause of this module names ([IndexError],
    [KeyError], [FileNotFoundError], ...). *)
Inductive exn :=
| FailureException (code : Z)
| ClientError (code : option Z)
| OtherError.

#[global] Instance exn_eq_dec : EqDecision exn.
Proof. solve_decision. Defined.

(** [e.code], when the attribute exists. *)
Definition exn_code (e : exn) : option Z :=
  match e with
  | FailureException c => Some c
  | ClientError c => c
  | OtherError => None
  end.

(** The classes named by the [except] clause of [download_file]. *)
Definition caught_by_download_file (e : exn) : bool :=
  match e with
  | FailureException _ | ClientError _ => true
  | OtherError => false
  end.

(** ** The state the coroutines share *)

(** What a run does to its collaborators, in the order it does it. *)
Inductive event :=
| EvAttempt (url : URL)
| EvAddLock (name : string)
| EvRemoveLock (name : string)
| EvInsertFile (path name : string) (completed : bool)
| EvUpdateFile (path name : string) (completed : bool)
| EvInsertTemp (temp : string)
| EvGetFilesize (url : URL) (throttle : Z)
| EvGetFilename (url : URL) (throttle : Z)
| EvGetContentType (url : URL) (throttle : Z)
| EvDownload (url : URL) (throttle : Z) (range : option string)
             (original_filename filename temp_file : string) (resume_point : Z).

#[global] Instance event_eq_dec : EqDecision event.
Proof. solve_decision. Defined.

Record World := mkWorld {
  locks : gset string;                    (* File_Lock: the held filenames *)
  ledger : gmap string (string * bool);   (* SQL_helper: path -> (filename, completed) *)
  temp_markers : gset string;             (* SQL_helper: the recorded temp paths *)
  files : gmap string Z;                  (* folder / title: file name -> size *)
  current_attempt : gmap string Z;        (* self.current_attempt *)
  semaphore : nat;                        (* free permits of self._semaphore *)
  clock : nat;                            (* session calls made so far *)
  trace : list event
}.

Definition set_locks (f : gset string → gset string) (w : World) : World :=
  mkWorld (f (locks w)) (ledger w) (temp_markers w) (files w)
          (current_attempt w) (semaphore w) (clock w) (trace w).
Definition set_ledger (f : gmap string (string * bool) → gmap string (string * bool))
    (w : World) : World :=
  mkWorld (locks w) (f (ledger w)) (temp_markers w) (files w)
          (current_attempt w) (semaphore w) (clock w) (trace w).
Definition set_temp_markers (f : gset string → gset string) (w : World) : World :=
  mkWorld (locks w) (ledger w) (f (temp_markers w)) (files w)
          (current_attempt w) (semaphore w) (clock w) (trace w).
Definition set_files (f : gmap string Z → gmap string Z) (w : World) : World :=
  mkWorld (locks w) (ledger w) (temp_markers w) (f (files w))
          (current_attempt w) (semaphore w) (clock w) (trace w).
Definition set_current_attempt (f : gmap string Z → gmap string Z) (w : World) : World :=
  mkWorld (locks w) (ledger w) (temp_markers w) (files w)
          (f (current_attempt w)) (semaphore w) (clock w) (trace w).
Definition set_semaphore (f : nat → nat) (w : World) : World :=
  mkWorld (locks w) (ledger w) (temp_markers w) (files w)
          (current_attempt w) (f (semaphore w)) (clock w) (trace w).
Definition tick (w : World) : World :=
  mkWorld (locks w) (ledger w) (temp_markers w) (files w)
          (current_attempt w) (semaphore w) (S (clock w)) (trace w).
Definition log (ev : event) (w : World) : World :=
  mkWorld (locks w) (ledger w) (temp_markers w) (files w)
          (current_attempt w) (semaphore w) (clock w) (trace w ++ [ev]).

(** The arguments [referral], [show_progress] and [proxy] of the
    coroutines are handed to the session as they are and decide
    nothing here: the embedding leaves them out. *)

(** The calls the retry decorator made, and the calls of
    [session.download_file], in a trace. *)
Definition is_attempt (ev : event) : bool :=
  match ev with EvAttempt _ => true | _ => false end.
Definition attempts_made (t : list event) : nat := length (List.filter is_attempt t).

Definition is_transfer (ev : event) : bool :=
  match ev with EvDownload _ _ _ _ _ _ _ => true | _ => false end.
Definition transfers_made (t : list event) : nat := length (List.filter is_transfer t).

(** ** Coroutines as state-and-exception computations

    A coroutine run to its end returns, raises, or is still [Pending]:
    it waits on something that the run cannot provide (a semaphore
    without a permit, a lock nobody releases) or its loop was cut by
    the fuel. *)
Inductive outcome (A : Type) :=
| Return (a : A)
| Raise (e : exn)
| Pending.
Arguments Return {A} a.
Arguments Raise {A} e.
Arguments Pending {A}.

Definition M (A : Type) : Type := World → outcome A * World.

Definition ret {A} (a : A) : M A := fun w => (Return a, w).
Definition raise {A} (e : exn) : M A := fun w => (Raise e, w).
Definition pending {A} : M A := fun w => (Pending, w).

Definition bind {A B} (m : M A) (k : A → M B) : M B :=
  fun w =>
    match m w with
    | (Return a, w') => k a w'
    | (Raise e, w') => (Raise e, w')
    | (Pending, w') => (Pending, w')
    end.

(** [try: m except: handler]. *)
Definition try_except {A} (m : M A) (handler : exn → M A) : M A :=
  fun w =>
    match m w with
    | (Raise e, w') => handler e w'
    | r => r
    end.

(** Whatever way [m] ends, [cleanup] runs (the exit of a [with] block);
    a run that is still pending has not left the block. *)
Definition finally {A} (m : M A) (cleanup : World → World) : M A :=
  fun w =>
    match m w with
    | (Pending, w') => (Pending, w')
    | (r, w') => (r, cleanup w')
    end.

Definition get {A} (f : World → A) : M A := fun w => (Return (f w), w).
Definition modify (f : World → World) : M unit := fun w => (Return tt, f w).

Declare Scope coroutine_scope.
Delimit Scope coroutine_scope with co.
Notation "x <- m ;; k" := (bind m (fun x => k))
  (at level 100, m at next level, k at level 200, right associativity) : coroutine_scope.
Notation "m ;; k" := (bind m (fun _ => k))
  (at level 100, k at level 200, right associativity) : coroutine_scope.
Local Open Scope coroutine_scope.

(** [await asyncio.sleep(...)]: a suspension, nothing else. *)
Definition sleep : M unit := ret tt.

(** ** Collaborators that live outside this module *)

(** *** base_functions.data_classes.FileLock *)

(** Modelled from the spec: the class [FileLock] is imported from
    [base_functions/data_classes.py], which is not part of the sources
    at hand.  The spec describes it as a table from filename to
    held/free with [is_locked(name) -> bool], [acquire(name)] (marks
    held) and [release(name)] (marks free; no-op if already free). *)
Definition check_lock (filename : string) : M bool :=
  get (fun w => bool_decide (filename ∈ locks w)).

Definition add_lock (filename : string) : M unit :=
  modify (fun w => log (EvAddLock filename) (set_locks (fun l => {[filename]} ∪ l) w)).

Definition remove_lock (filename : string) : M unit :=
  modify (fun w => log (EvRemoveLock filename) (set_locks (fun l => l ∖ {[filename]}) w)).

(** *** base_functions.sql_helper.SQLHelper *)

(** Modelled from the spec: the class [SQLHelper] is imported from
    [base_functions/sql_helper.py], which is not part of the sources at
    hand.  The spec describes a ledger record as keyed by the
    normalized source path with fields [stored_filename] and
    [completed], "created on first sighting of a path", "mutated to
    completed=true on success", "read to short-circuit
    already-completed or previously-named files"; its interface is
    [path_exists_completed], [insert_pending], [mark_completed],
    [lookup_assigned_name], [name_in_use], [insert_temp_marker]. *)
Definition completed_in (l : gmap string (string * bool)) (path : string) : bool :=
  match l !! path with
  | Some (_, true) => true
  | _ => false
  end.

Definition sql_check_existing (path : string) : M bool :=
  get (fun w => completed_in (ledger w) path).

(** A record is created on the first sighting of its path only. *)
Definition insert_record (path name : string) (completed : bool)
    (l : gmap string (string * bool)) : gmap string (string * bool) :=
  match l !! path with
  | Some _ => l
  | None => <[path := (name, completed)]> l
  end.

Definition sql_insert_file (path name : string) (completed : bool) : M unit :=
  modify (fun w => log (EvInsertFile path name completed)
                       (set_ledger (insert_record path name completed) w)).

Definition sql_update_file (path name : string) (completed : bool) : M unit :=
  modify (fun w => log (EvUpdateFile path name completed)
                       (set_ledger (fun l => <[path := (name, completed)]> l) w)).

Definition get_download_filename (path : string) : M (option string) :=
  get (fun w => fst <$> ledger w !! path).

(** The ledger's name index: the stored filenames of all records. *)
Definition name_index (l : gmap string (string * bool)) : list string :=
  (fun kv => fst (snd kv)) <$> map_to_list l.

Definition check_filename (name : string) : M bool :=
  get (fun w => bool_decide (name ∈ name_index (ledger w))).

Definition sql_insert_temp (temp : string) : M unit :=
  modify (fun w => log (EvInsertTemp temp) (set_temp_markers (fun t => {[temp]} ∪ t) w)).

(** *** client.client.DownloadSession and Client *)

(** What one call of [session.download_file] did: the size of the temp
    file it left behind ([None]: it wrote nothing) and the exception it
    raised, if any. *)
Record transfer := mkTransfer { written : option Z; raised : option exn }.

(** The transfer session is external: its answers are indexed by the
    number of session calls made before ([clock]) and by the URL.  All
    statements below hold for every such session. *)
Record DownloadSession := mkSession {
  session_get_filesize : nat → URL → exn + Z;
  session_get_filename : nat → URL → exn + string;
  session_get_content_type : nat → URL → exn + string;
  session_download_file : nat → URL → transfer
}.

Record Client := mkClient { client_throttle : Z }.

(** [await session.get_filesize(url, referer, current_throttle)]. *)
Definition get_filesize (session : DownloadSession) (url : URL) (throttle : Z) : M Z :=
  fun w =>
    let w' := tick (log (EvGetFilesize url throttle) w) in
    match session_get_filesize session (clock w) url with
    | inl e => (Raise e, w')
    | inr size => (Return size, w')
    end.

(** [await session.download_file(...)]: the bytes go to [temp_file]. *)
Definition session_download (session : DownloadSession) (url : URL) (throttle : Z)
    (range : option string) (original_filename filename temp_file : string)
    (resume_point : Z) : M unit :=
  fun w =>
    let r := session_download_file session (clock w) url in
    let w1 := tick (log (EvDownload url throttle range original_filename filename
                                    temp_file resume_point) w) in
    let w2 := match written r with
              | Some size => set_files (fun f => <[temp_file := size]> f) w1
              | None => w1
              end in
    match raised r with
    | Some e => (Raise e, w2)
    | None => (Return tt, w2)
    end.

(** *** The constants of base_functions *)

(** [FILE_FORMATS], [MAX_FILENAME_LENGTH] and [sanitize] are imported
    from [base_functions/base_functions.py], which is not part of the
    sources at hand: they are parameters of everything that uses
    them. *)
Record BaseFunctions := mkBase {
  Images : list string;
  Videos : list string;
  Audio : list string;
  Other : list string;
  MAX_FILENAME_LENGTH : nat;
  sanitize : string → string
}.

(** ** The data classes the factory reads *)

Record AlbumItem := mkAlbum { link_pairs : list (URL * URL) }.
Record DomainItem := mkDomain { albums : list (string * AlbumItem) }.
Record CascadeItem := mkCascade { domains : list (string * DomainItem) }.

Record Excludes := mkExcludes {
  exclude_videos : bool; exclude_images : bool;
  exclude_audio : bool; exclude_other : bool
}.

Record RuntimeArgs := mkRuntimeArgs {
  arg_attempts : Z;
  arg_disable_attempt_limit : bool;
  arg_mark_downloaded : bool
}.

(** ** class Downloader *)

Record Downloader := mkDownloader {
  album_obj : AlbumItem;
  title : string;
  client : Client;
  attempts : Z;
  disable_attempt_limit : bool;
  mark_downloaded : bool;
  excludes : Excludes;
  max_workers : Z;
  delay : list (string * Z)
}.

(** [Downloader.__init__]. *)
Definition Downloader_init (album : AlbumItem) (title : string) (max_workers : Z)
    (excludes : Excludes) (client : Client) (runtime_args : RuntimeArgs) : Downloader :=
  mkDownloader album title client
               (arg_attempts runtime_args)
               (arg_disable_attempt_limit runtime_args)
               (arg_mark_downloaded runtime_args)
               excludes max_workers
               [("cyberfile.is", 1); ("anonfiles.com", 1)].

(** *** The retry decorator (lines 21-46) *)

(** Lines 35-44: the URL of the next attempt. *)
Definition mirror (base : BaseFunctions) (url : URL) : URL :=
  if Str.contains "cyberdrop" (host url) then
    let ext := "." +:+ Str.last_piece "."%char (url_name url) in
    if Str.mem ext (Images base) then with_host url "img-01.cyberdrop.to"
    else URL_of_str (Str.replace "fs-05." "fs-04." (url_str url))
  else url.

(** [self.current_attempt[key]]: a missing key is a [KeyError]. *)
Definition read_attempt (key : string) : M Z :=
  fun w =>
    match current_attempt w !! key with
    | Some n => (Return n, w)
    | None => (Raise OtherError, w)
    end.

(** [retry(f)], applied to [self] and the URL [args[0]]; the other
    arguments of [f] never change between attempts and are part of
    [f] here.  Every call of [f] is recorded as an [EvAttempt]. *)
Fixpoint retry {A} (base : BaseFunctions) (self : Downloader) (fuel : nat)
    (f : URL → M A) (url : URL) : M A :=
  modify (log (EvAttempt url));;
  try_except (f url)
    (fun e =>
       match e with
       | FailureException _ =>
           n <- read_attempt (url_str url);;
           if (negb (disable_attempt_limit self) && (attempts self - 1 <=? n))%bool
           then raise e
           else
             modify (set_current_attempt (fun c => <[url_str url := n + 1]> c));;
             sleep;;
             match fuel with
             | O => pending
             | S fuel' => retry base self fuel' f (mirror base url)
             end
       | _ => raise e
       end).

(** *** download_file (lines 75-181) *)

(** Lines 79-80. *)
Definition init_counter (key : string) (c : gmap string Z) : gmap string Z :=
  match c !! key with
  | Some _ => c
  | None => <[key := 0]> c
  end.

Definition init_attempt (key : string) : M unit :=
  modify (set_current_attempt (init_counter key)).

(** Lines 83-90: the ledger key of a URL, its normalized source path.
    On an anonfiles host the second segment of the path is dropped;
    [None] is the [IndexError] of [pop(1)] on a path of one segment. *)
Definition normalized_path (url : URL) : option string :=
  if Str.contains "anonfiles" (host url) then
    match Str.pop 0 (Str.split "/"%char (path url)) with
    | None => None
    | Some pieces =>
        match Str.pop 1 pieces with
        | None => None
        | Some pieces' => Some ("/" +:+ Str.join "/" pieces')
        end
    end
  else Some (path url).

Definition db_path_of (url : URL) : M string :=
  match normalized_path url with
  | Some db_path => ret db_path
  | None => raise OtherError
  end.

(** [async with self._semaphore: body]. *)
Definition with_semaphore {A} (body : M A) : M A :=
  fun w =>
    match semaphore w with
    | O => (Pending, w)
    | S n => finally body (set_semaphore S) (set_semaphore (fun _ => n) w)
    end.

(** Lines 103-104: poll until the lock is seen free. *)
Fixpoint lock_wait (fuel : nat) (filename : string) : M unit :=
  held <- check_lock filename;;
  if held then
    sleep;;
    match fuel with
    | O => pending
    | S fuel' => lock_wait fuel' filename
    end
  else ret tt.

(** The name of line 123. *)
Definition numbered (stem : string) (iterations : nat) (ext : string) : string :=
  stem +:+ " (" +:+ pretty iterations +:+ ")" +:+ ext.

Definition file_exists (name : string) : M bool :=
  get (fun w => bool_decide (is_Some (files w !! name))).

(** Lines 122-128: the first numbered name that is free. *)
Fixpoint next_free_name (fuel : nat) (stem ext : string) (iterations : nat) : M string :=
  let filename := numbered stem iterations ext in
  on_disk <- file_exists filename;;
  taken <- (if on_disk then ret true else check_filename filename);;
  if taken then
    match fuel with
    | O => pending
    | S fuel' => next_free_name fuel' stem ext (S iterations)
    end
  else ret filename.

(** What line 126 and line 127 test together: the name is the name of
    a file of the folder or stands in the ledger's name index. *)
Definition name_taken (w : World) (name : string) : bool :=
  (bool_decide (is_Some (files w !! name))
   || bool_decide (name ∈ name_index (ledger w)))%bool.

(** [path.with_suffix(path.suffix + '.part')]. *)
Definition part_file (name : string) : string :=
  Path.with_suffix name (Path.suffix name +:+ ".part").

(** Lines 107-130: [None] is the [return] of line 116, [Some name] the
    filename the transfer will use. *)
Definition name_resolve (session : DownloadSession) (fuel : nat) (url : URL)
    (current_throttle : Z) (db_path filename ext : string) : M (option string) :=
  let complete_file := filename in
  let partial_file := part_file complete_file in
  complete_size <- get (fun w => files w !! complete_file);;
  partial_exists <- file_exists partial_file;;
  if (bool_decide (is_Some complete_size) || partial_exists)%bool then
    same <- match complete_size with
            | Some size =>
                total_size <- get_filesize session url current_throttle;;
                if size =? total_size then
                  sql_insert_file db_path complete_file true;; ret true
                else ret false
            | None => ret false
            end;;
    if (same : bool) then ret None
    else
      download_name <- get_download_filename db_path;;
      match download_name with
      | Some name =>
          if String.eqb name "" then
            name' <- next_free_name fuel (Path.stem complete_file) ext 1;;
            ret (Some name')
          else ret (Some name)
      | None =>
          name' <- next_free_name fuel (Path.stem complete_file) ext 1;;
          ret (Some name')
      end
  else ret (Some filename).

(** Lines 149-151. *)
Definition host_throttle (self : Downloader) (url : URL) (current_throttle : Z) : Z :=
  fold_left (fun t kv => if Str.contains (fst kv) (host url) then snd kv else t)
            (delay self) current_throttle.

(** Lines 100-155, the body of the [async with]: [None] when it
    returned (lines 116 and 136), [Some name] when control reaches
    line 157 with the final filename. *)
Definition locked_section (self : Downloader) (session : DownloadSession) (fuel : nat)
    (url : URL) (db_path : string) (current_throttle : Z) (filename : string)
    : M (option string) :=
  let original_filename := filename in
  let ext := "." +:+ Str.last_piece "."%char filename in
  lock_wait fuel filename;;
  add_lock filename;;
  resolved <- name_resolve session fuel url current_throttle db_path filename ext;;
  match resolved with
  | None => ret None
  | Some filename =>
      sql_insert_file db_path filename false;;
      if mark_downloaded self then
        sql_update_file db_path filename true;; ret None
      else
        let complete_file := filename in
        let temp_file := part_file complete_file in
        sql_insert_temp temp_file;;
        temp_size <- get (fun w => files w !! temp_file);;
        let resume_point := default 0 temp_size in
        let range_num := (fun size : Z => "bytes=" +:+ pretty size +:+ "-") <$> temp_size in
        let current_throttle := host_throttle self url current_throttle in
        session_download session url current_throttle range_num original_filename
                         filename temp_file resume_point;;
        ret (Some filename)
  end.

(** [rename_file] (lines 183-194). *)
Definition rename_file (filename : string) (db_path : string) : M unit :=
  let complete_file := filename in
  let temp_file := part_file complete_file in
  complete_exists <- file_exists complete_file;;
  temp_size <- get (fun w => files w !! temp_file);;
  match temp_size with
  | None => raise OtherError
  | Some size =>
      (if complete_exists then modify (set_files (fun f => delete temp_file f))
       else modify (set_files (fun f => <[complete_file := size]> (delete temp_file f))));;
      sql_update_file db_path filename true
  end.

(** Lines 160-181: the [except] clause. *)
Definition on_failure (url : URL) (original_filename : string) (e : exn) : M unit :=
  remove_lock original_filename;;
  match exn_code e with
  | Some code =>
      if ((400 <=? code) && (code <? 500) && negb (code =? 429))%bool then
        if Str.contains "media-files.bunkr" (host url) then
          raise (FailureException 1)
        else ret tt
      else raise (FailureException 1)
  | None => raise (FailureException 1)
  end.

(** The undecorated coroutine, [download_file.__wrapped__]. *)
Definition download_file_wrapped (self : Downloader) (session : DownloadSession)
    (fuel : nat) (filename : string) (url : URL) : M unit :=
  init_attempt (url_str url);;
  db_path <- db_path_of url;;
  let current_throttle := client_throttle (client self) in
  existing <- sql_check_existing db_path;;
  if (existing : bool) then ret tt
  else
    let original_filename := filename in
    try_except
      (reached <- with_semaphore
                    (locked_section self session fuel url db_path current_throttle filename);;
       match reached with
       | None => ret tt
       | Some filename =>
           rename_file filename db_path;;
           remove_lock original_filename
       end)
      (fun e =>
         if caught_by_download_file e then on_failure url original_filename e
         else raise e).

(** [Downloader.download_file], as callers see it: the coroutine above
    under [@retry]. *)
Definition download_file (base : BaseFunctions) (self : Downloader)
    (session : DownloadSession) (fuel : nat) (url : URL) (filename : string) : M unit :=
  retry base self fuel (download_file_wrapped self session fuel filename) url.

(** *** get_filename (lines 196-240) *)

(** [ext in FILE_FORMATS['Images'] or ... or ext in FILE_FORMATS['Other']]. *)
Definition known_format (base : BaseFunctions) (ext : string) : bool :=
  (Str.mem ext (Images base) || Str.mem ext (Videos base)
   || Str.mem ext (Audio base) || Str.mem ext (Other base))%bool.

(** Lines 204-206. *)
Definition shorten (base : BaseFunctions) (filename : string) : string :=
  if decide (MAX_FILENAME_LENGTH base < String.length filename)%nat then
    let fileext := Str.last_piece "."%char filename in
    Str.take (MAX_FILENAME_LENGTH base) filename +:+ "." +:+ fileext
  else filename.

(** Lines 238-239. *)
Definition lower_ext (filename : string) : string :=
  let ext := "." +:+ Str.lower (Str.last_piece "."%char filename) in
  Str.replace ("." +:+ Str.last_piece "."%char filename) ext filename.

(** Lines 212-215. *)
Definition slowest_throttle (self : Downloader) (url : URL) (current_throttle : Z) : Z :=
  fold_left (fun t kv => if (Str.contains (fst kv) (host url) && (t <? snd kv))%bool
                         then snd kv else t)
            (delay self) current_throttle.

(** [await session.get_filename(url, referer, current_throttle)]. *)
Definition ask_filename (session : DownloadSession) (url : URL) (throttle : Z) : M string :=
  fun w =>
    let w' := tick (log (EvGetFilename url throttle) w) in
    match session_get_filename session (clock w) url with
    | inl e => (Raise e, w')
    | inr name => (Return name, w')
    end.

(** [await session.get_content_type(url, referer, current_throttle)]. *)
Definition ask_content_type (session : DownloadSession) (url : URL) (throttle : Z) : M string :=
  fun w =>
    let w' := tick (log (EvGetContentType url throttle) w) in
    match session_get_content_type session (clock w) url with
    | inl e => (Raise e, w')
    | inr ct => (Return ct, w')
    end.

(** [except FailureException: handler]; other exceptions pass. *)
Definition except_failure {A} (m : M A) (handler : M A) : M A :=
  try_except m (fun e => match e with
                         | FailureException _ => handler
                         | _ => raise e
                         end).

(** Lines 200-203: the candidate name read off the URL. *)
Definition candidate_name (base : BaseFunctions) (url : URL) : string :=
  let filename := url_name url in
  let filename := sanitize base filename in
  if Str.contains "v=" filename then Str.before_first "v=" filename else filename.

Definition get_filename (base : BaseFunctions) (self : Downloader)
    (session : DownloadSession) (url : URL) : M string :=
  let filename := candidate_name base url in
  let filename := shorten base filename in
  let ext := "." +:+ Str.lower (Str.last_piece "."%char filename) in
  let current_throttle := client_throttle (client self) in
  filename <-
    (if known_format base ext then ret filename
     else
       let current_throttle := slowest_throttle self url current_throttle in
       (* lines 216-223: [inl] is a usable name, [inr] the name at hand
          when FailureException was raised *)
       asked <- except_failure
                  (name <- ask_filename session url current_throttle;;
                   let name := sanitize base name in
                   let ext := "." +:+ Str.lower (Str.last_piece "."%char name) in
                   if known_format base ext then ret (inl name) else ret (inr name))
                  (ret (inr filename));;
       match asked with
       | inl name => ret name
       | inr filename =>
           (* lines 225-236 *)
           except_failure
             (content_type <- ask_content_type session url current_throttle;;
              if Str.contains "image" content_type then
                let ext_temp := Str.last_piece "/"%char content_type in
                ret (sanitize base (filename +:+ "." +:+ ext_temp))
              else raise (FailureException 0))
             (raise (FailureException 0))
       end);;
  ret (lower_ext filename).

(** *** check_exclude (lines 242-261) *)

Definition check_exclude (base : BaseFunctions) (self : Downloader) (filename : string) : bool :=
  let ext := "." +:+ Str.last_piece "."%char filename in
  if (exclude_videos (excludes self) && Str.mem ext (Videos base))%bool then false
  else if (exclude_images (excludes self) && Str.mem ext (Images base))%bool then false
  else if (exclude_audio (excludes self) && Str.mem ext (Audio base))%bool then false
  else if (exclude_other (excludes self) && Str.mem ext (Other base))%bool then false
  else true.

(** *** download_and_store (lines 263-274): the pipeline of one link *)

Definition download_and_store (base : BaseFunctions) (self : Downloader)
    (session : DownloadSession) (fuel : nat) (url_tuple : URL * URL) : M unit :=
  let url := fst url_tuple in
  try_except
    (filename <- get_filename base self session url;;
     if check_exclude base self filename then
       download_file base self session fuel url filename
     else ret tt)
    (fun _ => ret tt).

(** ** get_downloaders (lines 290-304) *)

(** The test of line 297. *)
Definition strict_host (domain : string) : bool :=
  (Str.contains "bunkr" domain || Str.contains "pixeldrain" domain
   || Str.contains "anonfiles" domain)%bool.

(** Lines 296-298. *)
Definition max_workers_temp (max_workers : Z) (domain : string) : Z :=
  if strict_host domain
  then (if 2 <? max_workers then 2 else max_workers)
  else max_workers.

Definition get_downloaders (Cascade : CascadeItem) (excludes : Excludes) (client : Client)
    (max_workers : Z) (runtime_args : RuntimeArgs) : list Downloader :=
  flat_map
    (fun domain_item : string * DomainItem =>
       let (domain, domain_obj) := domain_item in
       map (fun album_item : string * AlbumItem =>
              let (title, album) := album_item in
              Downloader_init album title (max_workers_temp max_workers domain)
                              excludes client runtime_args)
           (albums domain_obj))
    (domains Cascade).

(** The (host, collection) pairs of the link tree, each with its
    title and its album, in the order in which [items()] yields
    them. *)
Definition pairs (Cascade : CascadeItem) : list (string * (string * AlbumItem)) :=
  flat_map (fun domain_item : string * DomainItem =>
              map (fun album_item => (fst domain_item, album_item))
                  (albums (snd domain_item)))
           (domains Cascade).

(** ** Several link tasks on one lock table

    [download_all] schedules the links of an album as coroutines of one
    event loop: one of them runs at a time, and the loop may switch to
    another one wherever the running one awaits.  A task is followed
    here through the lines of [download_file] that touch the lock
    table; every [await] among them is one step of its own. *)

Module Interleaving.

Inductive pc :=
| AtCheck     (* line 103: about to await check_lock(filename) *)
| AtSleep     (* line 104: saw the lock held, sleeping *)
| AtAdd       (* line 105: saw the lock free, about to await add_lock(filename) *)
| Locked      (* lines 107-157: LOCKED .. TRANSFERRING *)
| Left.       (* the coroutine is over *)

#[global] Instance pc_eq_dec : EqDecision pc.
Proof. solve_decision. Defined.

Record task := mkTask { filename : string; at_line : pc }.

(** How a task in [Locked] ends: through [remove_lock] (line 158 after
    the rename, line 164 in the [except] clause) or through one of the
    [return]s inside the [with] block (lines 116 and 136). *)
Inductive ending := ByRemoveLock | ByReturn.

(** The world after [m], whatever it returned. *)
Definition exec {A} (m : M A) (w : World) : World := snd (m w).

Definition result_of {A} (m : M A) (w : World) (d : A) : A :=
  match fst (m w) with
  | Return a => a
  | _ => d
  end.

(** One task runs up to its next [await]. *)
Definition step_task (how : ending) (t : task) (w : World) : task * World :=
  match at_line t with
  | AtCheck =>
      if result_of (check_lock (filename t)) w false
      then (mkTask (filename t) AtSleep, w)
      else (mkTask (filename t) AtAdd, w)
  | AtSleep => (mkTask (filename t) AtCheck, w)
  | AtAdd => (mkTask (filename t) Locked, exec (add_lock (filename t)) w)
  | Locked =>
      match how with
      | ByRemoveLock => (mkTask (filename t) Left, exec (remove_lock (filename t)) w)
      | ByReturn => (mkTask (filename t) Left, w)
      end
  | Left => (t, w)
  end.

(** The same with line 103's last check and line 105 done in one step,
    as one atomic test-and-set. *)
Definition step_task_atomic (how : ending) (t : task) (w : World) : task * World :=
  match at_line t with
  | AtCheck =>
      if result_of (check_lock (filename t)) w false
      then (mkTask (filename t) AtSleep, w)
      else (mkTask (filename t) Locked, exec (add_lock (filename t)) w)
  | _ => step_task how t w
  end.

Record config := mkConfig { tasks : list task; world : World }.

(** The event loop resumes task [i]. *)
Definition step (stepper : ending → task → World → task * World)
    (c : config) (choice : nat * ending) : config :=
  match tasks c !! fst choice with
  | None => c
  | Some t =>
      let (t', w') := stepper (snd choice) t (world c) in
      mkConfig (<[fst choice := t']> (tasks c)) w'
  end.

Definition run (stepper : ending → task → World → task * World)
    (c : config) (schedule : list (nat * ending)) : config :=
  fold_left (step stepper) schedule c.

(** The tasks that are between lock acquisition and the end of their
    transfer for [name]. *)
Definition holds (name : string) (t : task) : Prop :=
  filename t = name ∧ at_line t = Locked.

Definition holders (name : string) (c : config) : list task :=
  filter (holds name) (tasks c).

(** No task stands between a free observation and its [add_lock], a
    filename has at most one holder, and a filename without a lock
    has none. *)
Definition exclusive (c : config) : Prop :=
  Forall (fun t => at_line t ≠ AtAdd) (tasks c)
  ∧ ∀ name, (length (holders name c) ≤ 1)%nat
            ∧ (name ∉ locks (world c) → length (holders name c) = 0%nat).

End Interleaving.

(** ** Reading a trace

    The lock table and the ledger change through the operations of
    [FileLock] and [SQLHelper] only, and each of them leaves an event:
    the tables at any moment of a run are the tables at its start with
    the events so far replayed. *)

Definition lock_step (l : gset string) (ev : event) : gset string :=
  match ev with
  | EvAddLock name => {[name]} ∪ l
  | EvRemoveLock name => l ∖ {[name]}
  | _ => l
  end.

Definition ledger_step (l : gmap string (string * bool)) (ev : event)
    : gmap string (string * bool) :=
  match ev with
  | EvInsertFile path name completed => insert_record path name completed l
  | EvUpdateFile path name completed => <[path := (name, completed)]> l
  | _ => l
  end.

(** The three states of a path in the ledger, in their order. *)
Inductive status := Absent | PendingRecord | Completed.

Definition status_of (l : gmap string (string * bool)) (path : string) : status :=
  match l !! path with
  | None => Absent
  | Some (_, false) => PendingRecord
  | Some (_, true) => Completed
  end.

Definition status_rank (s : status) : nat :=
  match s with Absent => 0 | PendingRecord => 1 | Completed => 2 end.

Definition status_le (s1 s2 : status) : Prop := (status_rank s1 ≤ status_rank s2)%nat.

(** The states of [path] over time: before the first event and after
    each one. *)
Fixpoint status_history (path : string) (l : gmap string (string * bool))
    (evs : list event) : list status :=
  status_of l path ::
  match evs with
  | [] => []
  | ev :: evs' => status_history path (ledger_step l ev) evs'
  end.

(** Each state is at least the one before it. *)
Fixpoint never_regresses (h : list status) : Prop :=
  match h with
  | s1 :: ((s2 :: _) as rest) => status_le s1 s2 ∧ never_regresses rest
  | _ => True
  end.

(** A lock event about [name], or no lock event at all. *)
Definition lock_event_on (name : string) (ev : event) : Prop :=
  match ev with
  | EvAddLock n | EvRemoveLock n => n = name
  | _ => True
  end.

(** A ledger write as [download_file] issues them: an insert, or an
    update to completed of a path that has a record. *)
Definition orderly_write (l : gmap string (string * bool)) (ev : event) : Prop :=
  match ev with
  | EvUpdateFile path _ completed => completed = true ∧ is_Some (l !! path)
  | _ => True
  end.

Fixpoint orderly (l : gmap string (string * bool)) (evs : list event) : Prop :=
  match evs with
  | [] => True
  | ev :: evs' => orderly_write l ev ∧ orderly (ledger_step l ev) evs'
  end.

(** What a run of [download_file] for [name] may do to the lock table
    and the ledger between [w] and [w']. *)
Definition faithful_run (name : string) (w w' : World) : Prop :=
  ∃ evs, trace w' = trace w ++ evs
         ∧ locks w' = fold_left lock_step evs (locks w)
         ∧ ledger w' = fold_left ledger_step evs (ledger w)
         ∧ Forall (lock_event_on name) evs
         ∧ orderly (ledger w) evs.

(** What [rename_file] does to the folder (lines 187-191). *)
Definition rename_effect (name : string) (fs : gmap string Z) : gmap string Z :=
  match fs !! part_file name with
  | Some size =>
      if bool_decide (is_Some (fs !! name)) then delete (part_file name) fs
      else <[name := size]> (delete (part_file name) fs)
  | None => fs
  end.

(** The folder and the clock of the session, replayed from one event
    of a run of [download_file]: a session call advances the clock, a
    transfer leaves what the session wrote in the part file, and the
    update that completes a record comes with the rename of line 157
    unless the downloader only marks. *)
Definition files_step (self : Downloader) (session : DownloadSession)
    (st : gmap string Z * nat) (ev : event) : gmap string Z * nat :=
  match ev with
  | EvGetFilesize _ _ | EvGetFilename _ _ | EvGetContentType _ _ => (fst st, S (snd st))
  | EvDownload url _ _ _ _ temp_file _ =>
      (match written (session_download_file session (snd st) url) with
       | Some size => <[temp_file := size]> (fst st)
       | None => fst st
       end, S (snd st))
  | EvUpdateFile _ name _ =>
      (if mark_downloaded self then fst st else rename_effect name (fst st), snd st)
  | _ => st
  end.

(** The size query that an event leaves open: the URL asked about and
    the folder and clock at the moment of the call. *)
Definition asked_by (st : gmap string Z * nat) (ev : event)
    : option (URL * (gmap string Z * nat)) :=
  match ev with
  | EvGetFilesize url _ => Some (url, st)
  | _ => None
  end.

(** An insert of a completed record is justified when it comes directly
    after a size query and the file of the link's own name is in the
    folder with exactly the size the session answered. *)
Definition justified_insert (session : DownloadSession) (filename : string)
    (asked : option (URL * (gmap string Z * nat))) (ev : event) : Prop :=
  match ev with
  | EvInsertFile _ name true =>
      match asked with
      | Some (url, st) =>
          name = filename
          ∧ ∃ size, fst st !! name = Some size
                    ∧ session_get_filesize session (snd st) url = inr size
      | None => False
      end
  | _ => True
  end.

Fixpoint justified (self : Downloader) (session : DownloadSession) (filename : string)
    (asked : option (URL * (gmap string Z * nat))) (st : gmap string Z * nat)
    (evs : list event) : Prop :=
  match evs with
  | [] => True
  | ev :: evs' =>
      justified_insert session filename asked ev
      ∧ justified self session filename (asked_by st ev) (files_step self session st ev) evs'
  end.

(** What a run of [download_file] for [filename] does to the folder
    and the clock between [w] and [w']. *)
Definition accounted_run (self : Downloader) (session : DownloadSession) (filename : string)
    (w w' : World) : Prop :=
  ∃ evs, trace w' = trace w ++ evs
         ∧ (files w', clock w') = fold_left (files_step self session) evs (files w, clock w)
         ∧ justified self session filename None (files w, clock w) evs.

(** The file is on disk at the size the server reports, and the trace
    counts [k] transfers. *)
Definition already_there (filename : string) (size : Z) (k : nat) (w : World) : Prop :=
  files w !! filename = Some size ∧ transfers_made (trace w) = k.

(** ** Worlds that the statements name *)

(** The world at line 157 of a run that found the lock free and went
    on under the name it was given: [resume] is the size of the part
    file it found, [wr] the size of the part file the session left. *)
Definition after_transfer (self : Downloader) (url : URL) (db_path : string)
    (throttle : Z) (filename : string) (resume wr : option Z) (w : World) : World :=
  let w1 := log (EvAddLock filename) (set_locks (fun l => {[filename]} ∪ l) w) in
  let w2 := log (EvInsertFile db_path filename false)
                (set_ledger (insert_record db_path filename false) w1) in
  let w3 := log (EvInsertTemp (part_file filename))
                (set_temp_markers (fun t => {[part_file filename]} ∪ t) w2) in
  let w4 := tick (log (EvDownload url (host_throttle self url throttle)
                                  ((fun size : Z => "bytes=" +:+ pretty size +:+ "-") <$> resume)
                                  filename filename (part_file filename) (default 0 resume))
                      w3) in
  match wr with
  | Some size => set_files (fun f => <[part_file filename := size]> f) w4
  | None => w4
  end.

(** The trace of [w] starts with [t]. *)
Definition trace_from (t : list event) (w : World) : Prop := ∃ rest, trace w = t ++ rest.

(** The folder holds the files [fs], and the trace counts [k]
    transfers. *)
Definition untouched (fs : gmap string Z) (k : nat) (w : World) : Prop :=
  files w = fs ∧ transfers_made (trace w) = k.

(** What lines 169-181 decide: [true] when the except clause returns,
    [false] when it raises [FailureException(1)]. *)
Definition dropped_quietly (url : URL) (e : exn) : bool :=
  match exn_code e with
  | Some code =>
      ((400 <=? code) && (code <? 500) && negb (code =? 429)
       && negb (Str.contains "media-files.bunkr" (host url)))%bool
  | None => false
  end.

(** The worlds between the attempts of a link whose transfers fail:
    the lock is free, no file stands under the name, and once the
    path has a record it is pending under the name. *)
Definition between_attempts (filename path : string) (w : World) : Prop :=
  semaphore w ≠ 0%nat ∧ (filename ∉ locks w) ∧ files w !! filename = None
  ∧ ((ledger w !! path = None ∧ files w !! part_file filename = None)
     ∨ ledger w !! path = Some (filename, false)).

(** ** Worlds and sessions for the examples *)

Definition empty_world (permits : nat) : World :=
  mkWorld ∅ ∅ ∅ ∅ ∅ permits O [].

Definition with_files (fs : list (string * Z)) (w : World) : World :=
  set_files (fun _ => list_to_map fs) w.

(** The session of a server that reports [size] for every file and
    streams it whole. *)
Definition good_session (size : Z) : DownloadSession :=
  mkSession (fun _ _ => inr size) (fun _ _ => inl (FailureException 0))
            (fun _ _ => inl (FailureException 0))
            (fun _ _ => mkTransfer (Some size) None).

(** The session of a server that drops every connection. *)
Definition dead_session : DownloadSession :=
  mkSession (fun _ _ => inl (ClientError None)) (fun _ _ => inl (ClientError None))
            (fun _ _ => inl (ClientError None))
            (fun _ _ => mkTransfer None (Some (ClientError None))).

(** The session of a server that answers every transfer with 404. *)
Definition not_found_session : DownloadSession :=
  mkSession (fun _ _ => inr 10) (fun _ _ => inl (FailureException 0))
            (fun _ _ => inl (FailureException 0))
            (fun _ _ => mkTransfer None (Some (ClientError (Some 404)))).

(** A session whose transfers return without writing a byte. *)
Definition idle_session : DownloadSession :=
  mkSession (fun _ _ => inr 10) (fun _ _ => inl (FailureException 0))
            (fun _ _ => inl (FailureException 0))
            (fun _ _ => mkTransfer None None).

Definition some_base : BaseFunctions :=
  mkBase [".jpg"; ".png"; ".gif"] [".mp4"; ".mkv"] [".mp3"] [".zip"] 95 (fun s => s).

(** The smallest action that fails every time and sets up the counter
    as lines 79-80 do. *)
Definition always_failing (url : URL) : M unit :=
  init_attempt (url_str url);; raise (FailureException 0).

(** A name of 94 letters and an extension: 98 characters. *)
Definition long_stem : string := String.concat "" (replicate 94 "a").
Definition long_name : string := long_stem +:+ ".jpg".

Definition a_downloader (attempts : Z) (mark_only : bool) : Downloader :=
  Downloader_init (mkAlbum []) "album" 1 (mkExcludes false false false false)
                  (mkClient 0) (mkRuntimeArgs attempts false mark_only).

(** * Properties *)

(** ** The string operations *)

Lemma split_nonempty sep s : Str.split sep s ≠ [].
Proof.
  destruct s as [|c s]; simpl; [done|].
  destruct (Ascii.eqb c sep); [done|].
  by destruct (Str.split sep s).
Qed.

Lemma split_app_sep sep s1 s2 :
  Str.split sep (s1 +:+ String sep s2) = Str.split sep s1 ++ Str.split sep s2.
Proof.
  induction s1 as [|c s1 IH]; simpl.
  - by rewrite Ascii.eqb_refl.
  - destruct (Ascii.eqb c sep); [by rewrite IH|].
    rewrite IH. destruct (Str.split sep s1) eqn:E; [|done].
    by apply split_nonempty in E.
Qed.

Lemma prefix_char_cons c d s :
  String.prefix (String c EmptyString) (String d s) = bool_decide (c = d).
Proof.
  simpl. destruct (ascii_dec c d) as [->|Hne].
  - rewrite bool_decide_eq_true_2; [|done]. by destruct s.
  - by rewrite bool_decide_eq_false_2.
Qed.

Lemma split_without_sep sep s :
  Str.contains (String sep EmptyString) s = false → Str.split sep s = [s].
Proof.
  induction s as [|c s IH]; [done|].
  cbn [Str.contains]. rewrite prefix_char_cons.
  intros [Hc Hs]%orb_false_elim. apply bool_decide_eq_false in Hc.
  cbn [Str.split]. destruct (Ascii.eqb_spec c sep) as [->|_]; [done|].
  by rewrite IH.
Qed.

Lemma last_piece_app_sep sep s e :
  Str.contains (String sep EmptyString) e = false →
  Str.last_piece sep (s +:+ String sep e) = e.
Proof.
  intros He. unfold Str.last_piece.
  rewrite split_app_sep, (split_without_sep _ _ He).
  apply List.last_last.
Qed.

Lemma take_app_le n s1 s2 :
  (n ≤ String.length s1)%nat → Str.take n (s1 +:+ s2) = Str.take n s1.
Proof.
  revert s1. induction n as [|n IH]; intros [|c s1] Hn; simpl in *; try done; try lia.
  f_equal. apply IH. lia.
Qed.

Lemma take_all n s : (String.length s ≤ n)%nat → Str.take n s = s.
Proof.
  revert s. induction n as [|n IH]; intros [|c s] Hn; simpl in *; try done; try lia.
  f_equal. apply IH. lia.
Qed.

Lemma string_app_length s1 s2 :
  String.length (s1 +:+ s2) = (String.length s1 + String.length s2)%nat.
Proof. induction s1 as [|c s1 IH]; simpl; [done|]. by rewrite IH. Qed.

Lemma string_app_cons c (s1 s2 : string) : String c s1 +:+ s2 = String c (s1 +:+ s2).
Proof. reflexivity. Qed.

Lemma string_app_assoc (s1 s2 s3 : string) : (s1 +:+ s2) +:+ s3 = s1 +:+ s2 +:+ s3.
Proof.
  induction s1 as [|c s1 IH]; [done|].
  by rewrite !string_app_cons, IH.
Qed.

Lemma string_app_nil_r (s : string) : s +:+ "" = s.
Proof.
  induction s as [|c s IH]; [done|].
  by rewrite string_app_cons, IH.
Qed.

(** Appending on the right is injective. *)
Lemma string_app_inv_tail s1 s2 e : s1 +:+ e = s2 +:+ e → s1 = s2.
Proof.
  revert s2. induction s1 as [|c s1 IH]; intros [|d s2] H.
  - done.
  - apply (f_equal String.length) in H.
    rewrite !string_app_length in H. simpl in H. lia.
  - apply (f_equal String.length) in H.
    rewrite !string_app_length in H. simpl in H. lia.
  - rewrite !string_app_cons in H. injection H as -> H. f_equal. by apply IH.
Qed.

Lemma split_pieces_without_sep sep s p :
  p ∈ Str.split sep s → Str.contains (String sep EmptyString) p = false.
Proof.
  revert p. induction s as [|c s IH]; intros p; simpl.
  - by intros ->%list_elem_of_singleton.
  - destruct (Ascii.eqb_spec c sep) as [->|Hne].
    + intros [->|Hp]%elem_of_cons; [done|]. by apply IH.
    + destruct (Str.split sep s) as [|q qs] eqn:E; [by apply split_nonempty in E|].
      intros [->|Hp]%elem_of_cons.
      * cbn [Str.contains]. rewrite prefix_char_cons, bool_decide_eq_false_2 by congruence.
        apply IH. by left.
      * apply IH. by right.
Qed.

Lemma last_piece_without_sep sep s :
  Str.contains (String sep EmptyString) (Str.last_piece sep s) = false.
Proof.
  apply (split_pieces_without_sep sep s). unfold Str.last_piece.
  destruct (Str.split sep s) as [|q qs] eqn:E; [by apply split_nonempty in E|].
  destruct (List.exists_last (l := q :: qs)) as (l' & a & ->); [done|].
  rewrite List.last_last. apply elem_of_app. right. by left.
Qed.

Lemma prefix_app_drop (old s : string) :
  String.prefix old s = true → s = old +:+ Str.drop (String.length old) s.
Proof.
  revert s. induction old as [|c old IH]; intros s H; [done|].
  destruct s as [|d s]; [done|]. simpl in H.
  destruct (ascii_dec c d) as [->|]; [|done].
  rewrite string_app_cons. simpl. f_equal. by apply IH.
Qed.

Lemma drop_length_le n s : (String.length (Str.drop n s) ≤ String.length s)%nat.
Proof.
  revert s. induction n as [|n IH]; intros [|c s]; simpl; try lia.
  specialize (IH s). lia.
Qed.

Lemma replace_from_skip old new k s :
  Str.replace_from old new k s = Str.replace_from old new 0 (Str.drop k s).
Proof.
  revert s. induction k as [|k IH]; intros [|c s]; simpl; done.
Qed.

(** Replacing a text by itself changes nothing. *)
Lemma replace_same old s : old ≠ "" → Str.replace old old s = s.
Proof.
  intros Hold. unfold Str.replace.
  remember (String.length s) as n eqn:Hn. revert s Hn.
  induction n as [n IH] using lt_wf_ind. intros [|c s] Hn; [done|].
  cbn [Str.replace_from].
  destruct (String.prefix old (String c s)) eqn:Hp.
  - destruct old as [|o old]; [done|]. simpl in Hp.
    + destruct (ascii_dec o c) as [->|]; [|done].
      rewrite string_app_cons. f_equal.
      rewrite replace_from_skip. cbn [String.length Nat.pred].
      rewrite (IH (String.length (Str.drop (String.length old) s))).
      * symmetry. by apply prefix_app_drop.
      * pose proof (drop_length_le (String.length old) s). simpl in Hn. lia.
      * done.
  - f_equal. apply (IH (String.length s)); [simpl in Hn; lia | done].
Qed.

(** ** The factory ([get_downloaders]) *)

Lemma max_workers_temp_min max_workers domain :
  max_workers_temp max_workers domain
  = if strict_host domain then Z.min 2 max_workers else max_workers.
Proof.
  unfold max_workers_temp. destruct (strict_host domain); [|done].
  destruct (Z.ltb_spec 2 max_workers); lia.
Qed.

(** C6, as the code has it: the factory yields exactly one Downloader
    per (host, collection) pair of the link tree, in the order of the
    tree: the list it returns is the list of the pairs with each pair
    replaced by its Downloader, so there are as many Downloaders as
    pairs.  The worker cap of a pair's Downloader is the smaller of 2
    and the global cap when the host contains one of bunkr,
    pixeldrain, anonfiles, and the global cap otherwise.  For the host
    bunkr.is and a global cap of 10 the cap is 2. *)
Theorem worker_cap_of_every_pair Cascade excludes client max_workers runtime_args :
  get_downloaders Cascade excludes client max_workers runtime_args
  = map (fun pair : string * (string * AlbumItem) =>
           let (host, collection) := pair in
           Downloader_init (snd collection) (fst collection)
             (if strict_host host then Z.min 2 max_workers else max_workers)
             excludes client runtime_args)
        (pairs Cascade)
  ∧ length (get_downloaders Cascade excludes client max_workers runtime_args)
    = length (pairs Cascade)
  ∧ max_workers_temp 10 "bunkr.is" = 2.
Proof.
  assert (Hlist : get_downloaders Cascade excludes client max_workers runtime_args
    = map (fun pair : string * (string * AlbumItem) =>
           let (host, collection) := pair in
           Downloader_init (snd collection) (fst collection)
             (if strict_host host then Z.min 2 max_workers else max_workers)
             excludes client runtime_args)
        (pairs Cascade)).
  { unfold get_downloaders, pairs.
    induction (domains Cascade) as [|[domain domain_obj] rest IH]; [done|].
    cbn [flat_map]. rewrite map_app, IH. f_equal.
    rewrite map_map. apply map_ext. intros [t a]. cbn.
    by rewrite max_workers_temp_min. }
  split; [exact Hlist|]. split; [|done].
  by rewrite Hlist, length_map.
Qed.

(** C6, as stated, fails: on a strict host the cap is not 2 when the
    global cap is below 2. *)
Lemma strict_host_cap_below_two :
  strict_host "bunkr.is" = true
  ∧ max_workers <$> get_downloaders
                      (mkCascade [("bunkr.is", mkDomain [("album", mkAlbum [])])])
                      (mkExcludes false false false false) (mkClient 0) 1
                      (mkRuntimeArgs 3 false false)
    = [1].
Proof. by vm_compute. Qed.

(** ** Filename resolution ([get_filename]) *)

Lemma shorten_long base filename :
  (MAX_FILENAME_LENGTH base < String.length filename)%nat →
  shorten base filename
  = Str.take (MAX_FILENAME_LENGTH base) filename +:+ "." +:+ Str.last_piece "."%char filename.
Proof. intros H. unfold shorten. by rewrite decide_True. Qed.

Lemma get_filename_known_format base self session url w :
  known_format base
    ("." +:+ Str.lower (Str.last_piece "."%char (shorten base (candidate_name base url)))) = true →
  get_filename base self session url w
  = (Return (lower_ext (shorten base (candidate_name base url))), w).
Proof. intros H. unfold get_filename, bind. by rewrite H. Qed.

Lemma take_app_ge n s1 s2 :
  (String.length s1 ≤ n)%nat →
  Str.take n (s1 +:+ s2) = s1 +:+ Str.take (n - String.length s1) s2.
Proof.
  revert n. induction s1 as [|c s1 IH]; intros n Hn; simpl in *.
  - by rewrite Nat.sub_0_r.
  - destruct n as [|n]; [lia|]. rewrite !string_app_cons. simpl. f_equal. apply IH. lia.
Qed.

(** What lines 204-206 make of a name that is too long while its stem
    is not, whatever the maximum: the stem and its dot survive the
    cut, with as much of the extension as the maximum leaves room for,
    and the dot and the extension follow once more. *)
Lemma shorten_of_a_short_stem base stem ext :
  Str.contains "." ext = false →
  (String.length stem < MAX_FILENAME_LENGTH base)%nat →
  (MAX_FILENAME_LENGTH base < String.length (stem +:+ "." +:+ ext))%nat →
  shorten base (stem +:+ "." +:+ ext)
  = (stem +:+ "." +:+ Str.take (MAX_FILENAME_LENGTH base - S (String.length stem)) ext)
    +:+ "." +:+ ext.
Proof.
  intros Hext Hstem Hlong. rewrite (shorten_long _ _ Hlong).
  change (stem +:+ "." +:+ ext) with (stem +:+ String "."%char ext) at 2.
  rewrite (last_piece_app_sep "."%char stem ext Hext). f_equal.
  rewrite <- (string_app_assoc stem "." ext), take_app_ge.
  - rewrite string_app_length, string_app_assoc. cbn [String.length]. by rewrite Nat.add_1_r.
  - rewrite string_app_length. simpl. lia.
Qed.

(** C9 fails on the code.  Line 206 re-attaches the extension to a cut
    of the name, as the claim says, but takes the cut over the whole
    name and not over its stem.  The name below is 98 characters long
    with a stem of 94 and the maximum is 95: the cut keeps the stem
    and the dot, so the returned name ends in two dots and the
    extension, and no cut of the stem followed by the extension equals
    it. *)
Theorem shorten_keeps_the_dot :
  (MAX_FILENAME_LENGTH some_base < String.length long_name)%nat
  ∧ Path.stem long_name = long_stem
  ∧ Path.suffix long_name = ".jpg"
  ∧ get_filename some_base (a_downloader 3 false) dead_session
                 (mkURL "https" "example.com" ("/" +:+ long_name)) (empty_world 1)
    = (Return (long_stem +:+ "..jpg"), empty_world 1)
  ∧ ∀ t, long_stem +:+ "..jpg" = t +:+ Path.suffix long_name →
         String.prefix t (Path.stem long_name) = false.
Proof.
  split; [vm_compute; lia|]. do 3 (split; [by vm_compute|]).
  intros t Ht. change (Path.suffix long_name) with ".jpg" in Ht.
  change (long_stem +:+ "..jpg") with ((long_stem +:+ ".") +:+ ".jpg") in Ht.
  apply string_app_inv_tail in Ht as <-. by vm_compute.
Qed.

(** ** The retry decorator *)

Lemma attempts_made_app t1 t2 :
  attempts_made (t1 ++ t2) = (attempts_made t1 + attempts_made t2)%nat.
Proof. unfold attempts_made. by rewrite List.filter_app, length_app. Qed.

Lemma attempts_made_log ev w :
  attempts_made (trace (log ev w))
  = (attempts_made (trace w) + if is_attempt ev then 1 else 0)%nat.
Proof. unfold log; cbn [trace]. rewrite attempts_made_app. by destruct ev. Qed.

Lemma retry_again {A} base self fuel (f : URL → M A) url w c w1 n :
  f url (log (EvAttempt url) w) = (Raise (FailureException c), w1) →
  current_attempt w1 !! url_str url = Some n →
  (disable_attempt_limit self = true ∨ n < attempts self - 1) →
  retry base self (S fuel) f url w
  = retry base self fuel f (mirror base url)
          (set_current_attempt (fun a => <[url_str url := n + 1]> a) w1).
Proof.
  intros Hf Hn Hlimit.
  cbn [retry]. unfold bind at 1. unfold modify at 1. unfold try_except. rewrite Hf.
  unfold bind at 1. unfold read_attempt. rewrite Hn.
  assert ((negb (disable_attempt_limit self) && (attempts self - 1 <=? n))%bool = false) as ->.
  { destruct Hlimit as [->|Hlt]; [done|]. apply andb_false_iff. right. lia. }
  unfold bind, modify, sleep, ret. by destruct fuel.
Qed.

Lemma retry_gives_up {A} base self fuel (f : URL → M A) url w c w1 n :
  f url (log (EvAttempt url) w) = (Raise (FailureException c), w1) →
  current_attempt w1 !! url_str url = Some n →
  disable_attempt_limit self = false → attempts self - 1 ≤ n →
  retry base self fuel f url w = (Raise (FailureException c), w1).
Proof.
  intros Hf Hn Hlimit Hle.
  destruct fuel; cbn [retry]; unfold bind at 1; unfold modify at 1; unfold try_except;
    rewrite Hf; unfold bind at 1; unfold read_attempt; rewrite Hn, Hlimit; cbn;
    by rewrite (proj2 (Z.leb_le _ _) Hle).
Qed.

(** C7, as the code has it: when a recoverable failure leads to a
    retry, the next attempt runs on [mirror url].  If the host contains
    cyberdrop and the extension of the URL's name is an image type, the
    host becomes img-01.cyberdrop.to.  If the host contains cyberdrop
    and the extension is no image type, the URL is read back from its
    text with every fs-05. replaced by fs-04., wherever in the text it
    stands.  A URL whose host does not contain cyberdrop is retried
    unchanged, whatever tokens it holds. *)
Theorem mirror_on_retry {A} base self fuel (f : URL → M A) url w c w1 n :
  f url (log (EvAttempt url) w) = (Raise (FailureException c), w1) →
  current_attempt w1 !! url_str url = Some n →
  (disable_attempt_limit self = true ∨ n < attempts self - 1) →
  let ext := "." +:+ Str.last_piece "."%char (url_name url) in
  retry base self (S fuel) f url w
  = retry base self fuel f (mirror base url)
          (set_current_attempt (fun a => <[url_str url := n + 1]> a) w1)
  ∧ (Str.contains "cyberdrop" (host url) = true → Str.mem ext (Images base) = true →
     mirror base url = mkURL (scheme url) "img-01.cyberdrop.to" (path url))
  ∧ (Str.contains "cyberdrop" (host url) = true → Str.mem ext (Images base) = false →
     mirror base url = URL_of_str (Str.replace "fs-05." "fs-04." (url_str url)))
  ∧ (Str.contains "cyberdrop" (host url) = false → mirror base url = url).
Proof.
  intros Hf Hn Hlimit ext. split; [by eapply retry_again|].
  unfold mirror; fold ext. repeat split; by intros ->; try intros ->.
Qed.

Lemma mirror_on_retry_witness :
  let u := mkURL "https" "fs-05.cyberdrop.to" "/video.mp4" in
  let f := download_file_wrapped (a_downloader 3 false) dead_session 5 "video.mp4" in
  let w1 := snd (f u (log (EvAttempt u) (empty_world 1))) in
  retry some_base (a_downloader 3 false) 6 f u (empty_world 1)
  = retry some_base (a_downloader 3 false) 5 f (mirror some_base u)
          (set_current_attempt (fun a => <[url_str u := 0 + 1]> a) w1)
  ∧ mirror some_base u = URL_of_str (Str.replace "fs-05." "fs-04." (url_str u)).
Proof.
  intros u f w1.
  pose proof (mirror_on_retry some_base (a_downloader 3 false) 5 f u (empty_world 1) 1 w1 0)
    as H.
  destruct H as (Hretry & _ & Hreplace & _).
  - vm_compute. reflexivity.
  - vm_compute. reflexivity.
  - right. vm_compute. reflexivity.
  - split; [exact Hretry|]. apply Hreplace; vm_compute; reflexivity.
Defined.

(** C7, as stated, fails twice.  A host that holds the token fs-05. but
    not the marker cyberdrop is retried unchanged, and on a cyberdrop
    host without the token a video whose path holds fs-05. has its path
    rewritten. *)
Lemma mirror_follows_the_marker_only :
  (Str.contains "fs-05." (host (mkURL "https" "fs-05.example.com" "/clip.mp4")) = true
   ∧ mirror some_base (mkURL "https" "fs-05.example.com" "/clip.mp4")
     = mkURL "https" "fs-05.example.com" "/clip.mp4")
  ∧ (Str.contains "fs-05." (host (mkURL "https" "cyberdrop.to" "/fs-05.mp4")) = false
     ∧ Str.mem ".mp4" (Images some_base) = false
     ∧ mirror some_base (mkURL "https" "cyberdrop.to" "/fs-05.mp4")
       = mkURL "https" "cyberdrop.to" "/fs-04.mp4").
Proof. by vm_compute. Qed.

(** ** Name resolution (lines 107-130 of [download_file]) *)

Lemma next_free_name_step fuel stem ext i w :
  next_free_name fuel stem ext i w
  = if name_taken w (numbered stem i ext)
    then match fuel with
         | O => (Pending, w)
         | S fuel' => next_free_name fuel' stem ext (S i) w
         end
    else (Return (numbered stem i ext), w).
Proof.
  unfold name_taken.
  destruct fuel; cbn [next_free_name]; unfold bind, file_exists, check_filename, get, ret, pending;
    destruct (bool_decide (is_Some (files w !! numbered stem i ext))); simpl;
    by destruct (bool_decide (numbered stem i ext ∈ name_index (ledger w))).
Qed.

Lemma next_free_name_finds fuel stem ext i n w :
  (i ≤ n)%nat → (n - i ≤ fuel)%nat →
  (∀ k, (i ≤ k < n)%nat → name_taken w (numbered stem k ext) = true) →
  name_taken w (numbered stem n ext) = false →
  next_free_name fuel stem ext i w = (Return (numbered stem n ext), w).
Proof.
  revert i. induction fuel as [|fuel IH]; intros i Hin Hfuel Hbelow Hfree;
    rewrite next_free_name_step.
  - assert (i = n) as -> by lia. by rewrite Hfree.
  - destruct (decide (i = n)) as [->|Hne]; [by rewrite Hfree|].
    rewrite Hbelow by lia. apply IH; [lia|lia| |done].
    intros k Hk. apply Hbelow. lia.
Qed.

Lemma numbered_inj stem ext n m : numbered stem n ext = numbered stem m ext → n = m.
Proof.
  intros H. unfold numbered in H.
  apply String.app_inj, String.app_inj in H.
  rewrite <- !string_app_assoc in H. do 2 apply string_app_inv_tail in H.
  by apply (inj pretty) in H.
Qed.

(** Among more names than a list has entries, one is not in the list. *)
Lemma one_name_is_free (names : nat → string) (l : list string) :
  (∀ n m, names n = names m → n = m) →
  ∃ n, (n ≤ length l)%nat ∧ names n ∉ l.
Proof.
  intros Hinj.
  destruct (decide (Forall (fun n => names n ∈ l) (seq 0 (S (length l))))) as [Hall|Hex].
  - exfalso.
    assert (Hsub : names <$> seq 0 (S (length l)) ⊆+ l).
    { apply NoDup_submseteq; [apply NoDup_fmap_2; [exact Hinj|apply NoDup_seq]|].
      intros x (n & -> & Hn)%list_elem_of_fmap. rewrite Forall_forall in Hall. by apply Hall. }
    apply submseteq_length in Hsub. rewrite length_fmap, length_seq in Hsub. lia.
  - apply not_Forall_Exists in Hex; [|solve_decision]. apply Exists_exists in Hex as (n & Hn & Hfree).
    apply elem_of_seq in Hn. exists n. split; [lia|done].
Qed.

Lemma first_free (taken : nat → bool) i n :
  (i ≤ n)%nat → taken n = false →
  ∃ m, (i ≤ m ≤ n)%nat ∧ taken m = false ∧ ∀ k, (i ≤ k < m)%nat → taken k = true.
Proof.
  remember (n - i)%nat as d eqn:Hd. revert i Hd.
  induction d as [|d IH]; intros i Hd Hin Hn.
  - assert (i = n) as -> by lia. exists n. repeat split; [lia|lia|done|lia].
  - destruct (taken i) eqn:Hi.
    + destruct (IH (S i)) as (m & Hm & Hfree & Hbelow); [lia|lia|done|].
      exists m. repeat split; [lia|lia|done|].
      intros k Hk. destruct (decide (k = i)) as [->|]; [done|]. apply Hbelow. lia.
    + exists i. repeat split; [lia|lia|done|lia].
Qed.

Lemma name_taken_false w name :
  name_taken w name = false
  ↔ name ∉ elements (dom (files w)) ++ name_index (ledger w).
Proof.
  unfold name_taken. rewrite orb_false_iff, !bool_decide_eq_false.
  rewrite not_elem_of_app, elem_of_elements, elem_of_dom. done.
Qed.

(** Some numbered name is free: the files and the records are finitely many. *)
Lemma some_numbered_name_is_free w stem ext :
  ∃ n, (1 ≤ n)%nat ∧ name_taken w (numbered stem n ext) = false
       ∧ ∀ k, (1 ≤ k < n)%nat → name_taken w (numbered stem k ext) = true.
Proof.
  destruct (one_name_is_free (fun n => numbered stem (S n) ext)
              (elements (dom (files w)) ++ name_index (ledger w))) as (n & _ & Hn).
  { intros n m H. apply numbered_inj in H. lia. }
  apply name_taken_false in Hn.
  destruct (first_free (fun k => name_taken w (numbered stem k ext)) 1 (S n))
    as (m & Hm & Hfree & Hbelow); [lia|done|].
  exists m. repeat split; [lia|done|done].
Qed.

(** C8, as the code has it: when the destination of the candidate
    filename is occupied by an unrelated file (a complete file whose
    size differs from the size the server reports, or a partial file
    alone) and the ledger holds no record for the link's path, name
    resolution returns
    [stem (n)ext] for the least n >= 1 whose name neither exists in the
    folder nor stands in the ledger's name index; such an n always
    exists, all smaller candidates are taken, and the loop reaches it
    as soon as it may run n - 1 further rounds. *)
Theorem name_resolve_numbers_the_name session url throttle db_path filename w :
  let ext := "." +:+ Str.last_piece "."%char filename in
  let stem := Path.stem filename in
  match files w !! filename with
  | Some size => ∃ total, session_get_filesize session (clock w) url = inr total ∧ total ≠ size
  | None => is_Some (files w !! part_file filename)
  end →
  ledger w !! db_path = None →
  ∃ n, (1 ≤ n)%nat
       ∧ name_taken w (numbered stem n ext) = false
       ∧ (∀ k, (1 ≤ k < n)%nat → name_taken w (numbered stem k ext) = true)
       ∧ ∀ fuel, (n ≤ S fuel)%nat →
           name_resolve session fuel url throttle db_path filename ext w
           = (Return (Some (numbered stem n ext)),
              if files w !! filename is Some _ then tick (log (EvGetFilesize url throttle) w) else w).
Proof.
  intros ext stem Hocc Hnew.
  destruct (some_numbered_name_is_free w stem ext) as (n & Hn & Hfree & Hbelow).
  exists n. do 3 (split; [done|]). intros fuel Hfuel.
  unfold name_resolve, bind, file_exists, get_download_filename, get.
  destruct (files w !! filename) as [size|] eqn:Hfile.
  - destruct Hocc as (total & Htotal & Hne). cbn.
    unfold get_filesize. rewrite Htotal.
    destruct (Z.eqb_spec size total) as [->|_]; [done|]. cbn.
    rewrite Hnew. cbn. 
    rewrite (next_free_name_finds fuel stem ext 1 n);
      [done|lia|lia|exact Hbelow|exact Hfree].
  - rewrite (bool_decide_eq_true_2 _ Hocc). cbn. rewrite Hnew. cbn.
    rewrite (next_free_name_finds fuel stem ext 1 n);
      [done|lia|lia|exact Hbelow|exact Hfree].
Qed.

Lemma name_resolve_numbers_the_name_witness :
  name_resolve (good_session 10) 0 (mkURL "https" "example.com" "/a.jpg") 0
               "/a.jpg" "a.jpg" ".jpg" (with_files [("a.jpg", 7)] (empty_world 1))
  = (Return (Some "a (1).jpg"),
     tick (log (EvGetFilesize (mkURL "https" "example.com" "/a.jpg") 0)
               (with_files [("a.jpg", 7)] (empty_world 1)))).
Proof.
  destruct (name_resolve_numbers_the_name (good_session 10)
              (mkURL "https" "example.com" "/a.jpg") 0 "/a.jpg" "a.jpg"
              (with_files [("a.jpg", 7)] (empty_world 1)))
    as (n & Hn & Hfree & Hbelow & Hresolve).
  - exists 10. by vm_compute.
  - by vm_compute.
  - assert (n = 1%nat) as ->.
    { destruct (decide (n = 1%nat)) as [|Hne]; [done|].
      assert (H1 : (1 ≤ 1 < n)%nat) by lia. apply Hbelow in H1. by vm_compute in H1. }
    apply (Hresolve 0%nat). lia.
Defined.

(** C8, as stated, fails: [a.jpg] is in the folder, the ledger has no
    record for the link's path, and the server reports for the link
    the very size of the file.  Lines 111-116 take the file for the
    link's own: no name is generated, whatever the fuel; the path is
    recorded as completed under [a.jpg] and nothing is fetched. *)
Lemma same_size_file_gets_no_number :
  let u := mkURL "https" "example.com" "/a.jpg" in
  let w := with_files [("a.jpg", 10)] (empty_world 1) in
  files w !! "a.jpg" = Some 10
  ∧ ledger w !! "/a.jpg" = None
  ∧ session_get_filesize (good_session 10) (clock w) u = inr 10
  ∧ (∀ fuel, fst (name_resolve (good_session 10) fuel u 0 "/a.jpg" "a.jpg" ".jpg" w)
             = Return None)
  ∧ (let w' := snd (download_file some_base (a_downloader 3 false) (good_session 10) 5
                      u "a.jpg" w) in
     map_to_list (files w') = [("a.jpg", 10)]
     ∧ map_to_list (ledger w') = [("/a.jpg", ("a.jpg", true))]
     ∧ transfers_made (trace w') = 0%nat).
Proof.
  split; [by vm_compute|]. split; [by vm_compute|]. split; [done|].
  split; [intros fuel; by vm_compute|].
  vm_compute. repeat split; reflexivity.
Qed.

(** The two cases the spec names, through the whole of [download_file]:
    with [a.jpg] occupied the file is fetched as [a (1).jpg], and as
    [a (2).jpg] when that name is occupied too. *)
Example occupied_name_gets_number_one :
  let w := snd (download_file some_base (a_downloader 3 false) (good_session 10) 5
                  (mkURL "https" "example.com" "/a.jpg") "a.jpg"
                  (with_files [("a.jpg", 7)] (empty_world 1))) in
  map_to_list (files w) = [("a.jpg", 7); ("a (1).jpg", 10)]
  ∧ map_to_list (ledger w) = [("/a.jpg", ("a (1).jpg", true))].
Proof. vm_compute. split; reflexivity. Qed.

Example occupied_twice_gets_number_two :
  let w := snd (download_file some_base (a_downloader 3 false) (good_session 10) 5
                  (mkURL "https" "example.com" "/a.jpg") "a.jpg"
                  (with_files [("a.jpg", 7); ("a (1).jpg", 8)] (empty_world 1))) in
  map_to_list (files w) = [("a.jpg", 7); ("a (1).jpg", 8); ("a (2).jpg", 10)]
  ∧ map_to_list (ledger w) = [("/a.jpg", ("a (2).jpg", true))].
Proof. vm_compute. split; reflexivity. Qed.

Section RetryCeiling.
Context {A : Type} (base : BaseFunctions) (self : Downloader) (f : URL → M A) (url : URL).
Context (I : World → Prop).

Hypothesis limit : disable_attempt_limit self = false.
Hypothesis fixed : mirror base url = url.
Hypothesis I_log : ∀ w ev, I w → I (log ev w).
Hypothesis I_count : ∀ w g, I w → I (set_current_attempt g w).
(* the action fails every time, and treats the counter as lines 79-80 do *)
Hypothesis fails : ∀ w, I w →
  ∃ c w', f url w = (Raise (FailureException c), w') ∧ I w'
          ∧ current_attempt w' !! url_str url
            = Some (default 0 (current_attempt w !! url_str url))
          ∧ attempts_made (trace w') = attempts_made (trace w).

Lemma retry_counts_down (r : nat) : ∀ fuel w,
  I w → (r ≤ fuel)%nat →
  default 0 (current_attempt w !! url_str url) + Z.of_nat r = attempts self - 1 →
  ∃ c w', retry base self fuel f url w = (Raise (FailureException c), w')
          ∧ attempts_made (trace w') = (attempts_made (trace w) + S r)%nat
          ∧ current_attempt w' !! url_str url
            = Some (default 0 (current_attempt w !! url_str url) + Z.of_nat r).
Proof.
  induction r as [|r IH]; intros fuel w Hw Hfuel Hr.
  - destruct (fails (log (EvAttempt url) w)) as (c & w1 & Hf & Hw1 & Hn & Htr); [by apply I_log|].
    exists c, w1. rewrite (retry_gives_up _ _ _ _ _ _ _ _ _ Hf Hn limit).
    + split; [done|]. split.
      * rewrite Htr, attempts_made_log. cbn. lia.
      * rewrite Hn. cbn. f_equal. lia.
    + cbn. lia.
  - destruct (fails (log (EvAttempt url) w)) as (c & w1 & Hf & Hw1 & Hn & Htr); [by apply I_log|].
    destruct fuel as [|fuel]; [lia|].
    rewrite (retry_again _ _ _ _ _ _ _ _ _ Hf Hn) by (right; cbn; lia).
    rewrite fixed.
    destruct (IH fuel (set_current_attempt (λ a, <[url_str url := default 0 (current_attempt w !! url_str url) + 1]> a) w1))
      as (c' & w' & Hretry & Htr' & Hn'); [by apply I_count|lia| |].
    + cbn. rewrite lookup_insert_eq. cbn. lia.
    + exists c', w'. split; [exact Hretry|]. split.
      * rewrite Htr'. cbn [trace set_current_attempt]. rewrite Htr, attempts_made_log. cbn. lia.
      * rewrite Hn'. cbn. rewrite lookup_insert_eq. cbn. f_equal. lia.
Qed.
End RetryCeiling.

(** With a URL that the heuristic keeps and a fresh counter, an action
    that fails every time is called exactly [attempts] times before the
    failure reaches the caller; the counter then stands at
    [attempts - 1]. *)
Theorem retry_ceiling_when_url_is_kept {A} base self (f : URL → M A) url
    (I : World → Prop) fuel w :
  disable_attempt_limit self = false →
  mirror base url = url →
  (∀ w ev, I w → I (log ev w)) →
  (∀ w g, I w → I (set_current_attempt g w)) →
  (∀ w, I w →
     ∃ c w', f url w = (Raise (FailureException c), w') ∧ I w'
             ∧ current_attempt w' !! url_str url
               = Some (default 0 (current_attempt w !! url_str url))
             ∧ attempts_made (trace w') = attempts_made (trace w)) →
  I w → current_attempt w !! url_str url = None →
  1 ≤ attempts self → (Z.to_nat (attempts self - 1) ≤ fuel)%nat →
  ∃ c w', retry base self fuel f url w = (Raise (FailureException c), w')
          ∧ attempts_made (trace w') = (attempts_made (trace w) + Z.to_nat (attempts self))%nat
          ∧ current_attempt w' !! url_str url = Some (attempts self - 1).
Proof.
  intros Hlimit Hfixed Hlog Hcount Hfails Hw Hfresh Hattempts Hfuel.
  destruct (retry_counts_down base self f url I Hlimit Hfixed Hlog Hcount Hfails
              (Z.to_nat (attempts self - 1)) fuel w Hw Hfuel) as (c & w' & Hr & Htr & Hn).
  { rewrite Hfresh. cbn. lia. }
  exists c, w'. split; [done|]. split.
  - rewrite Htr. lia.
  - rewrite Hn, Hfresh. cbn. f_equal. lia.
Qed.

Lemma retry_ceiling_when_url_is_kept_witness :
  ∃ c w', retry some_base (a_downloader 3 false) 2
                always_failing
                (mkURL "https" "example.com" "/a.jpg") (empty_world 1)
          = (Raise (FailureException c), w')
          ∧ attempts_made (trace w') = (0 + 3)%nat
          ∧ current_attempt w' !! "https://example.com/a.jpg" = Some 2.
Proof.
  apply (retry_ceiling_when_url_is_kept some_base (a_downloader 3 false)
           always_failing
           (mkURL "https" "example.com" "/a.jpg") (fun _ => True) 2 (empty_world 1));
    try done.
  - intros w _. eexists 0, _. unfold always_failing, bind, init_attempt, modify, raise.
    split; [reflexivity|]. split; [done|]. split; [|done].
    cbn. unfold init_counter.
    destruct (current_attempt w !! _) eqn:E; cbn; [by rewrite E|].
    apply lookup_insert_eq.
Defined.

(** C3 fails on the code for a URL that the heuristic rewrites.  The
    counter is keyed by the text of the URL: after the first failure
    the URL below becomes https://fs-04.cyberdrop.to/video.mp4, the
    next call starts a counter of its own at 0, and with attempts = 3
    the action is called four times before the failure reaches the
    caller. *)
Theorem rewritten_url_gets_a_fourth_attempt :
  let u := mkURL "https" "fs-05.cyberdrop.to" "/video.mp4" in
  let r := download_file some_base (a_downloader 3 false) dead_session 5 u "video.mp4"
                         (empty_world 1) in
  attempts (a_downloader 3 false) = 3
  ∧ disable_attempt_limit (a_downloader 3 false) = false
  ∧ mirror some_base u = mkURL "https" "fs-04.cyberdrop.to" "/video.mp4"
  ∧ fst r = Raise (FailureException 1)
  ∧ attempts_made (trace (snd r)) = 4%nat
  ∧ transfers_made (trace (snd r)) = 4%nat
  ∧ map_to_list (current_attempt (snd r))
    = [("https://fs-05.cyberdrop.to/video.mp4", 1);
       ("https://fs-04.cyberdrop.to/video.mp4", 2)].
Proof. vm_compute. repeat split; reflexivity. Qed.

(** ** One attempt, and the attempts of the retry loop *)

Lemma lock_wait_eq fuel name w :
  lock_wait fuel name w
  = (if bool_decide (name ∈ locks w) then Pending else Return tt, w).
Proof.
  induction fuel as [|fuel IH]; cbn [lock_wait]; unfold bind, check_lock, get, sleep, ret, pending;
    destruct (bool_decide (name ∈ locks w)) eqn:E; done.
Qed.

Lemma next_free_name_world fuel stem ext i w :
  snd (next_free_name fuel stem ext i w) = w.
Proof.
  revert i. induction fuel as [|fuel IH]; intros i; rewrite next_free_name_step;
    destruct (name_taken w _); done.
Qed.

Lemma orderly_app l evs1 evs2 :
  orderly l (evs1 ++ evs2) ↔ orderly l evs1 ∧ orderly (fold_left ledger_step evs1 l) evs2.
Proof.
  revert l. induction evs1 as [|ev evs1 IH]; intros l; cbn; [tauto|].
  rewrite IH. tauto.
Qed.

Lemma insert_record_is_Some path name completed l :
  is_Some (insert_record path name completed l !! path).
Proof.
  unfold insert_record. destruct (l !! path) eqn:E; [by rewrite E|].
  rewrite lookup_insert_eq. done.
Qed.

Lemma faithful_run_refl name w : faithful_run name w w.
Proof. exists []. by rewrite app_nil_r. Qed.

Lemma faithful_run_trans name w1 w2 w3 :
  faithful_run name w1 w2 → faithful_run name w2 w3 → faithful_run name w1 w3.
Proof.
  intros (e1 & Ht1 & Hk1 & Hl1 & Hf1 & Ho1) (e2 & Ht2 & Hk2 & Hl2 & Hf2 & Ho2).
  exists (e1 ++ e2). rewrite !fold_left_app, <- Hk1, <- Hl1.
  split; [by rewrite Ht2, Ht1, (assoc_L (++))|]. do 2 (split; [done|]).
  split; [by apply Forall_app|]. apply orderly_app. by rewrite <- Hl1.
Qed.

Lemma faithful_run_log name w ev :
  lock_event_on name ev → orderly_write (ledger w) ev →
  (∀ l, lock_step l ev = l) → (∀ l, ledger_step l ev = l) →
  faithful_run name w (log ev w).
Proof.
  intros Hlock Hwrite Hk Hl. exists [ev]. cbn. rewrite Hk, Hl. by repeat split; auto.
Qed.

(** An invariant of every attempt is an invariant of the retry loop. *)
Lemma retry_invariant {A} (J : World → Prop) base self (f : URL → M A) :
  (∀ u w, J w → J (log (EvAttempt u) w)) →
  (∀ g w, J w → J (set_current_attempt g w)) →
  (∀ u w, J w → J (snd (f u w))) →
  ∀ fuel u w, J w → J (snd (retry base self fuel f u w)).
Proof.
  intros Hlog Hcount Hf fuel.
  induction fuel as [|fuel IH]; intros u w Hw; cbn [retry];
    unfold bind at 1; unfold modify at 1; unfold try_except;
    specialize (Hf u _ (Hlog u _ Hw));
    destruct (f u (log (EvAttempt u) w)) as [[a|e|] w1]; cbn [snd] in *; try done;
    destruct e; try done;
    unfold bind at 1; unfold read_attempt;
    destruct (current_attempt w1 !! url_str u); try done;
    destruct (negb _ && _)%bool; try done; cbn.
  - by apply Hcount.
  - apply IH. by apply Hcount.
Qed.

Ltac unfold_coroutine :=
  cbv beta iota zeta delta
    [locked_section name_resolve rename_file on_failure
     sql_check_existing sql_insert_file
     sql_update_file sql_insert_temp get_download_filename check_filename file_exists
     add_lock remove_lock get_filesize session_download
     bind ret raise pending get modify try_except finally sleep
     set_locks set_ledger set_temp_markers set_files set_current_attempt set_semaphore
     tick log locks ledger temp_markers files current_attempt semaphore clock trace
     caught_by_download_file exn_code];
  cbn [fst snd].

Ltac split_branch :=
  match goal with
  | |- context [lock_wait ?f ?n ?w] => rewrite (lock_wait_eq f n w)
  | |- context [next_free_name ?f ?s ?e ?i ?w] =>
      let H := fresh in
      pose proof (next_free_name_world f s e i w) as H;
      destruct (next_free_name f s e i w) as [[?|?|] ?]; simpl in H; subst
  | |- context [match ?x with _ => _ end] =>
      lazymatch x with
      | context [match _ with _ => _ end] => fail
      | _ => destruct x eqn:?
      end
  end.

Ltac run_coroutine := unfold_coroutine; repeat (split_branch; unfold_coroutine).

Ltac close_run :=
  first
    [ exists []; rewrite app_nil_r; by repeat split
    | rewrite <- ?(assoc_L (++)); eexists; split; [reflexivity|];
      cbn [fold_left app lock_step ledger_step orderly orderly_write];
      repeat split; auto using insert_record_is_Some;
      by repeat constructor ].

Lemma locked_section_faithful self session fuel url db_path throttle filename w :
  let r := locked_section self session fuel url db_path throttle filename w in
  faithful_run filename w (snd r)
  ∧ ∀ name, fst r = Return (Some name) → is_Some (ledger (snd r) !! db_path).
Proof.
  destruct w as [lk lg tm fs ca sem ck tr].
  unfold faithful_run. run_coroutine.
  all: (split; [close_run|]); try (intros ? [=]); auto using insert_record_is_Some.
Qed.

Lemma rename_file_faithful name filename db_path w :
  is_Some (ledger w !! db_path) →
  faithful_run name w (snd (rename_file filename db_path w)).
Proof.
  destruct w as [lk lg tm fs ca sem ck tr]. intros Hrecord.
  unfold faithful_run. run_coroutine. all: close_run.
Qed.

Lemma on_failure_faithful url name e w :
  faithful_run name w (snd (on_failure url name e w)).
Proof.
  destruct w as [lk lg tm fs ca sem ck tr].
  unfold faithful_run. run_coroutine. all: close_run.
Qed.

Lemma faithful_run_eq name w w' :
  trace w' = trace w → locks w' = locks w → ledger w' = ledger w →
  faithful_run name w w'.
Proof. intros Ht Hk Hl. exists []. rewrite app_nil_r. by repeat split. Qed.

Lemma remove_lock_faithful name w : faithful_run name w (snd (remove_lock name w)).
Proof. exists [EvRemoveLock name]. repeat split; try done. by repeat constructor. Qed.

Lemma db_path_of_world url w : snd (db_path_of url w) = w.
Proof. unfold db_path_of. by destruct (normalized_path url). Qed.

Lemma download_file_wrapped_faithful self session fuel filename url w :
  faithful_run filename w (snd (download_file_wrapped self session fuel filename url w)).
Proof.
  unfold download_file_wrapped, init_attempt.
  unfold bind at 1. unfold modify at 1.
  set (w0 := set_current_attempt _ w).
  assert (H0 : faithful_run filename w w0) by by apply faithful_run_eq.
  unfold bind at 1.
  pose proof (db_path_of_world url w0) as Hdb.
  destruct (db_path_of url w0) as [[db_path|e|] w0']; cbn in Hdb; subst w0'; [|done..].
  unfold bind at 1, sql_check_existing, get.
  destruct (completed_in (ledger w0) db_path); [done|].
  unfold try_except, bind at 1, with_semaphore.
  destruct (semaphore w0) as [|permits] eqn:Hsem; [done|].
  unfold finally.
  set (w1 := set_semaphore _ w0).
  assert (H1 : faithful_run filename w w1).
  { eapply faithful_run_trans; [exact H0|]. by apply faithful_run_eq. }
  destruct (locked_section_faithful self session fuel url db_path
              (client_throttle (client self)) filename w1) as [H2 Hrecord].
  cbn zeta in H2, Hrecord.
  destruct (locked_section self session fuel url db_path _ filename w1)
    as [[[name|]|e|] w2]; cbn [fst snd] in *.
  - specialize (Hrecord name eq_refl).
    set (w3 := set_semaphore S w2).
    assert (H3 : faithful_run filename w w3).
    { eapply faithful_run_trans; [exact H1|]. eapply faithful_run_trans; [exact H2|].
      by apply faithful_run_eq. }
    unfold bind at 1.
    pose proof (rename_file_faithful filename name db_path w3 Hrecord) as H4.
    destruct (rename_file name db_path w3) as [[[]|e|] w4]; cbn [fst snd] in *.
    + eapply faithful_run_trans; [exact H3|]. eapply faithful_run_trans; [exact H4|].
      apply remove_lock_faithful.
    + destruct (caught_by_download_file e); cbn.
      * eapply faithful_run_trans; [exact H3|]. eapply faithful_run_trans; [exact H4|].
        apply on_failure_faithful.
      * eapply faithful_run_trans; [exact H3|exact H4].
    + eapply faithful_run_trans; [exact H3|exact H4].
  - eapply faithful_run_trans; [exact H1|]. eapply faithful_run_trans; [exact H2|].
    by apply faithful_run_eq.
  - assert (H3 : faithful_run filename w (set_semaphore S w2)).
    { eapply faithful_run_trans; [exact H1|]. eapply faithful_run_trans; [exact H2|].
      by apply faithful_run_eq. }
    destruct (caught_by_download_file e); cbn; [|done].
    eapply faithful_run_trans; [exact H3|]. apply on_failure_faithful.
  - eapply faithful_run_trans; [exact H1|exact H2].
Qed.

Lemma download_file_faithful base self session fuel url filename w :
  faithful_run filename w (snd (download_file base self session fuel url filename w)).
Proof.
  unfold download_file.
  apply (retry_invariant (faithful_run filename w)).
  - intros u W HW. eapply faithful_run_trans; [exact HW|]. by apply faithful_run_log.
  - intros g W HW. eapply faithful_run_trans; [exact HW|]. by apply faithful_run_eq.
  - intros u W HW. eapply faithful_run_trans; [exact HW|]. apply download_file_wrapped_faithful.
  - apply faithful_run_refl.
Qed.

(** ** The lock table *)

Lemma other_names_keep_their_lock name other evs l :
  Forall (lock_event_on name) evs → other ≠ name →
  other ∈ fold_left lock_step evs l ↔ other ∈ l.
Proof.
  intros Hevs Hne. revert l.
  induction Hevs as [|ev evs Hev _ IH]; intros l; cbn [fold_left]; [done|].
  rewrite IH. clear IH.
  destruct ev; cbn in Hev |- *; try done; subst;
    rewrite ?elem_of_union, ?elem_of_difference, ?elem_of_singleton; tauto.
Qed.

(** C10: in a run of [download_file], retries included, every entry
    added to the lock table and every entry removed from it is the
    filename the coroutine was called with, the one resolved before
    any collision was looked at.  The lock table is the table at the
    start with these events replayed, so at every moment of the run
    any other name, and with it the numbered name a collision leads
    to, is locked exactly if it was locked at the start: the transfer
    that writes such a name runs without a lock on it. *)
Theorem lock_table_is_keyed_by_the_original_filename
    base self session fuel url filename w :
  let w' := snd (download_file base self session fuel url filename w) in
  ∃ evs, trace w' = trace w ++ evs
         ∧ locks w' = fold_left lock_step evs (locks w)
         ∧ Forall (lock_event_on filename) evs
         ∧ ∀ evs1 evs2 name, evs = evs1 ++ evs2 → name ≠ filename →
             name ∈ fold_left lock_step evs1 (locks w) ↔ name ∈ locks w.
Proof.
  destruct (download_file_faithful base self session fuel url filename w)
    as (evs & Htrace & Hlocks & _ & Hevs & _).
  exists evs. do 3 (split; [done|]).
  intros evs1 evs2 name -> Hne. apply Forall_app in Hevs as [Hevs1 _].
  by apply other_names_keep_their_lock with filename.
Qed.

(** The run of the spec's collision case: the lock is taken and given
    back under [a.jpg] while the bytes go to [a (1).jpg]. *)
Example numbered_name_is_written_unlocked :
  trace (snd (download_file some_base (a_downloader 3 false) (good_session 10) 5
                (mkURL "https" "example.com" "/a.jpg") "a.jpg"
                (with_files [("a.jpg", 7)] (empty_world 1))))
  = [EvAttempt (mkURL "https" "example.com" "/a.jpg");
     EvAddLock "a.jpg";
     EvGetFilesize (mkURL "https" "example.com" "/a.jpg") 0;
     EvInsertFile "/a.jpg" "a (1).jpg" false;
     EvInsertTemp "a (1).jpg.part";
     EvDownload (mkURL "https" "example.com" "/a.jpg") 0 None
                "a.jpg" "a (1).jpg" "a (1).jpg.part" 0;
     EvUpdateFile "/a.jpg" "a (1).jpg" true;
     EvRemoveLock "a.jpg"].
Proof. vm_compute. reflexivity. Qed.

(** ** The ledger *)

Lemma orderly_write_raises l ev path :
  orderly_write l ev → status_le (status_of l path) (status_of (ledger_step l ev) path).
Proof.
  unfold status_le, status_of. destruct ev; cbn; try lia.
  - intros _. unfold insert_record. destruct (l !! path0) eqn:E; [lia|].
    destruct (decide (path0 = path)) as [->|Hne].
    + rewrite E, lookup_insert_eq. destruct completed; cbn; lia.
    + rewrite lookup_insert_ne by done. lia.
  - intros [-> _]. destruct (decide (path0 = path)) as [->|Hne].
    + rewrite lookup_insert_eq. destruct (l !! path) as [[? []]|]; cbn; lia.
    + rewrite lookup_insert_ne by done. lia.
Qed.

Lemma orderly_never_regresses l evs path :
  orderly l evs → never_regresses (status_history path l evs).
Proof.
  revert l. induction evs as [|ev evs IH]; intros l; cbn [orderly status_history]; [done|].
  intros [Hev Hevs]. specialize (IH _ Hevs).
  destruct evs; cbn [status_history never_regresses] in *;
    (split; [by apply orderly_write_raises|done]).
Qed.

(** How a path becomes completed through an orderly write. *)
Lemma orderly_write_completes l ev path :
  orderly_write l ev →
  status_of l path ≠ Completed → status_of (ledger_step l ev) path = Completed →
  (status_of l path = PendingRecord ∧ ∃ name, ev = EvUpdateFile path name true)
  ∨ (status_of l path = Absent ∧ ∃ name, ev = EvInsertFile path name true).
Proof.
  unfold status_of. destruct ev; cbn; try congruence.
  - intros _. unfold insert_record. destruct (l !! path0) eqn:E; [congruence|].
    destruct (decide (path0 = path)) as [->|Hne].
    + rewrite E, lookup_insert_eq. destruct completed; [|done]. right. eauto.
    + rewrite lookup_insert_ne by done. congruence.
  - intros [-> Hsome]. destruct (decide (path0 = path)) as [->|Hne].
    + rewrite lookup_insert_eq. destruct (l !! path) as [[? []]|] eqn:E; try done.
      left. eauto.
    + rewrite lookup_insert_ne by done. congruence.
Qed.

(** *** What the inserts of a run rest on *)

Section Accounted.
Context (self : Downloader) (session : DownloadSession) (filename : string).

Lemma justified_any asked st evs :
  justified self session filename None st evs → justified self session filename asked st evs.
Proof. destruct evs as [|ev evs]; [done|]. intros [Hev Hevs]. split; [|done]. by destruct ev as [| | |? ? []| | | | | |]. Qed.

Lemma justified_app asked st evs1 evs2 :
  justified self session filename asked st evs1 →
  justified self session filename None (fold_left (files_step self session) evs1 st) evs2 →
  justified self session filename asked st (evs1 ++ evs2).
Proof.
  revert asked st. induction evs1 as [|ev evs1 IH]; intros asked st; cbn [app fold_left justified].
  - intros _. apply justified_any.
  - intros [Hev Hevs] H2. split; [done|]. by apply IH.
Qed.

Lemma accounted_run_refl w : accounted_run self session filename w w.
Proof. exists []. by rewrite app_nil_r. Qed.

Lemma accounted_run_trans w1 w2 w3 :
  accounted_run self session filename w1 w2 → accounted_run self session filename w2 w3 →
  accounted_run self session filename w1 w3.
Proof.
  intros (e1 & Ht1 & Hf1 & Hj1) (e2 & Ht2 & Hf2 & Hj2).
  exists (e1 ++ e2). rewrite fold_left_app, <- Hf1.
  split; [by rewrite Ht2, Ht1, (assoc_L (++))|]. split; [done|].
  apply justified_app; [done|]. by rewrite <- Hf1.
Qed.

Lemma accounted_run_eq w w' :
  trace w' = trace w → files w' = files w → clock w' = clock w →
  accounted_run self session filename w w'.
Proof. intros Ht Hf Hc. exists []. rewrite app_nil_r, Hf, Hc. by repeat split. Qed.

Lemma accounted_run_log w ev :
  (∀ st, files_step self session st ev = st) →
  justified_insert session filename None ev →
  accounted_run self session filename w (log ev w).
Proof. intros Hstep Hev. exists [ev]. cbn. by rewrite Hstep. Qed.
End Accounted.

Ltac recall_answers :=
  repeat match goal with
         | H : ?x = _ |- context [?x] =>
             lazymatch x with
             | context [session_get_filesize] => rewrite H
             | context [session_download_file] => rewrite H
             | context [mark_downloaded] => rewrite H
             | context [@lookup] => rewrite H
             end
         end.

Ltac close_accounted :=
  first
    [ exists []; rewrite app_nil_r; by repeat split
    | rewrite <- ?(assoc_L (++)); eexists; split; [reflexivity|];
      cbn [fold_left app files_step justified justified_insert asked_by fst snd];
      recall_answers;
      repeat split; try done;
      match goal with
      | H : (?a =? ?b) = true |- _ => apply Z.eqb_eq in H; subst; eauto
      end ].

Lemma locked_section_accounted self session fuel url db_path throttle filename w :
  let r := locked_section self session fuel url db_path throttle filename w in
  accounted_run self session filename w (snd r)
  ∧ ∀ name, fst r = Return (Some name) → mark_downloaded self = false.
Proof.
  destruct w as [lk lg tm fs ca sem ck tr].
  unfold accounted_run. run_coroutine.
  all: (split; [close_accounted|]); try (intros ? [=]); auto.
Qed.

Lemma rename_file_accounted self session name filename db_path w :
  mark_downloaded self = false →
  accounted_run self session name w (snd (rename_file filename db_path w)).
Proof.
  destruct w as [lk lg tm fs ca sem ck tr]. intros Hfetch.
  unfold accounted_run. run_coroutine.
  all: first
    [ exists []; rewrite app_nil_r; by repeat split
    | eexists; split; [reflexivity|];
      cbn [fold_left files_step justified justified_insert fst snd];
      unfold rename_effect; rewrite Hfetch; recall_answers;
      rewrite ?bool_decide_eq_true_2, ?bool_decide_eq_false_2 by
        (first [by apply bool_decide_eq_true_1 | by apply bool_decide_eq_false_1]);
      by repeat split ].
Qed.

Lemma on_failure_accounted self session url name e w :
  accounted_run self session name w (snd (on_failure url name e w)).
Proof.
  destruct w as [lk lg tm fs ca sem ck tr].
  unfold accounted_run. run_coroutine. all: close_accounted.
Qed.

Lemma remove_lock_accounted self session name w :
  accounted_run self session name w (snd (remove_lock name w)).
Proof. exists [EvRemoveLock name]. by repeat split. Qed.

Lemma download_file_wrapped_accounted self session fuel filename url w :
  accounted_run self session filename w
    (snd (download_file_wrapped self session fuel filename url w)).
Proof.
  unfold download_file_wrapped, init_attempt.
  unfold bind at 1. unfold modify at 1.
  set (w0 := set_current_attempt _ w).
  assert (H0 : accounted_run self session filename w w0) by by apply accounted_run_eq.
  unfold bind at 1.
  pose proof (db_path_of_world url w0) as Hdb.
  destruct (db_path_of url w0) as [[db_path|e|] w0']; cbn in Hdb; subst w0'; [|done..].
  unfold bind at 1, sql_check_existing, get.
  destruct (completed_in (ledger w0) db_path); [done|].
  unfold try_except, bind at 1, with_semaphore.
  destruct (semaphore w0) as [|permits] eqn:Hsem; [done|].
  unfold finally.
  set (w1 := set_semaphore _ w0).
  assert (H1 : accounted_run self session filename w w1).
  { eapply accounted_run_trans; [exact H0|]. by apply accounted_run_eq. }
  destruct (locked_section_accounted self session fuel url db_path
              (client_throttle (client self)) filename w1) as [H2 Hfetch].
  cbn zeta in H2, Hfetch.
  destruct (locked_section self session fuel url db_path _ filename w1)
    as [[[name|]|e|] w2]; cbn [fst snd] in *.
  - specialize (Hfetch name eq_refl).
    set (w3 := set_semaphore S w2).
    assert (H3 : accounted_run self session filename w w3).
    { eapply accounted_run_trans; [exact H1|]. eapply accounted_run_trans; [exact H2|].
      by apply accounted_run_eq. }
    unfold bind at 1.
    pose proof (rename_file_accounted self session filename name db_path w3 Hfetch) as H4.
    destruct (rename_file name db_path w3) as [[[]|e|] w4]; cbn [fst snd] in *.
    + eapply accounted_run_trans; [exact H3|]. eapply accounted_run_trans; [exact H4|].
      apply remove_lock_accounted.
    + destruct (caught_by_download_file e); cbn.
      * eapply accounted_run_trans; [exact H3|]. eapply accounted_run_trans; [exact H4|].
        apply on_failure_accounted.
      * eapply accounted_run_trans; [exact H3|exact H4].
    + eapply accounted_run_trans; [exact H3|exact H4].
  - eapply accounted_run_trans; [exact H1|]. eapply accounted_run_trans; [exact H2|].
    by apply accounted_run_eq.
  - assert (H3 : accounted_run self session filename w (set_semaphore S w2)).
    { eapply accounted_run_trans; [exact H1|]. eapply accounted_run_trans; [exact H2|].
      by apply accounted_run_eq. }
    destruct (caught_by_download_file e); cbn; [|done].
    eapply accounted_run_trans; [exact H3|]. apply on_failure_accounted.
  - eapply accounted_run_trans; [exact H1|exact H2].
Qed.

Lemma download_file_accounted base self session fuel url filename w :
  accounted_run self session filename w
    (snd (download_file base self session fuel url filename w)).
Proof.
  unfold download_file.
  apply (retry_invariant (accounted_run self session filename w)).
  - intros u W HW. eapply accounted_run_trans; [exact HW|]. by apply accounted_run_log.
  - intros g W HW. eapply accounted_run_trans; [exact HW|]. by apply accounted_run_eq.
  - intros u W HW. eapply accounted_run_trans; [exact HW|].
    apply download_file_wrapped_accounted.
  - apply accounted_run_refl.
Qed.

Lemma justified_after self session filename asked st evs0 e ev evs2 :
  justified self session filename asked st ((evs0 ++ [e]) ++ ev :: evs2) →
  justified_insert session filename
    (asked_by (fold_left (files_step self session) evs0 st) e) ev.
Proof.
  revert asked st. induction evs0 as [|e0 evs0 IH]; intros asked st; cbn [app fold_left justified].
  - by intros [_ [Hev _]].
  - intros [_ Hrest]. by apply IH in Hrest.
Qed.

(** How an insert writes a record as completed: only line 114 does. *)
Lemma justified_completes self session filename st evs1 path name evs2 :
  justified self session filename None st (evs1 ++ EvInsertFile path name true :: evs2) →
  name = filename
  ∧ ∃ evs0 u throttle size,
      evs1 = evs0 ++ [EvGetFilesize u throttle]
      ∧ fst (fold_left (files_step self session) evs0 st) !! filename = Some size
      ∧ session_get_filesize session (snd (fold_left (files_step self session) evs0 st)) u
        = inr size.
Proof.
  destruct evs1 as [|e evs0 _] using rev_ind; [by intros [[] _]|].
  intros Hev%justified_after. destruct e; try done.
  destruct Hev as [-> (size & Hsize & Hanswer)]. split; [done|].
  by exists evs0, url, throttle, size.
Qed.

(** C4, as the code has it: over a run of [download_file], retries
    included, the state of every path in the ledger never regresses
    (absent, then pending, then completed, each state at least the
    one before it).  A path becomes completed in one of two ways only.
    A pending record is marked completed by an update (lines 135 and
    193, after the insert of line 132).  Or a record is inserted as
    completed for a path that had none, and then the insert is the one
    of line 114: it stores the filename of the call, it comes directly
    after the size query of line 112, and at that query the folder
    holds a file of this name whose size is the size the session
    answered.  So completed can follow absent directly, and only so. *)
Theorem ledger_never_regresses base self session fuel url filename w path :
  let w' := snd (download_file base self session fuel url filename w) in
  ∃ evs, trace w' = trace w ++ evs
         ∧ ledger w' = fold_left ledger_step evs (ledger w)
         ∧ never_regresses (status_history path (ledger w) evs)
         ∧ ∀ evs1 ev evs2, evs = evs1 ++ ev :: evs2 →
             let before := fold_left ledger_step evs1 (ledger w) in
             status_of before path ≠ Completed →
             status_of (ledger_step before ev) path = Completed →
             (status_of before path = PendingRecord ∧ ∃ name, ev = EvUpdateFile path name true)
             ∨ (status_of before path = Absent
                ∧ ev = EvInsertFile path filename true
                ∧ ∃ evs0 u throttle size,
                    evs1 = evs0 ++ [EvGetFilesize u throttle]
                    ∧ let on_disk :=
                        fold_left (files_step self session) evs0 (files w, clock w) in
                      fst on_disk !! filename = Some size
                      ∧ session_get_filesize session (snd on_disk) u = inr size).
Proof.
  destruct (download_file_faithful base self session fuel url filename w)
    as (evs & Htrace & _ & Hledger & _ & Horderly).
  destruct (download_file_accounted base self session fuel url filename w)
    as (evs' & Htrace' & _ & Hjustified).
  rewrite Htrace in Htrace'. apply (inj (app (trace w))) in Htrace' as <-.
  exists evs. do 2 (split; [done|]). split; [by apply orderly_never_regresses|].
  intros evs1 ev evs2 -> before Hnot Hcompleted.
  apply orderly_app in Horderly as [_ [Hev _]].
  destruct (orderly_write_completes _ _ _ Hev Hnot Hcompleted)
    as [?|[Habsent [name ->]]]; [by left|right].
  apply justified_completes in Hjustified as [-> Hasked]. done.
Qed.

(** C4, as stated, fails: with [a.jpg] on disk at the size the server
    reports and no record for its path, line 114 writes the record as
    completed; the path goes from absent to completed and is never
    pending. *)
Lemma completed_without_pending :
  let w := with_files [("a.jpg", 10)] (empty_world 1) in
  let w' := snd (download_file some_base (a_downloader 3 false) (good_session 10) 5
                   (mkURL "https" "example.com" "/a.jpg") "a.jpg" w) in
  trace w' = [EvAttempt (mkURL "https" "example.com" "/a.jpg");
              EvAddLock "a.jpg";
              EvGetFilesize (mkURL "https" "example.com" "/a.jpg") 0;
              EvInsertFile "/a.jpg" "a.jpg" true]
  ∧ status_history "/a.jpg" (ledger w) (trace w')
    = [Absent; Absent; Absent; Absent; Completed]
  ∧ status_of (ledger w') "/a.jpg" = Completed.
Proof. vm_compute. repeat split; reflexivity. Qed.

(** ** Dedup *)

Lemma transfers_made_app t1 t2 :
  transfers_made (t1 ++ t2) = (transfers_made t1 + transfers_made t2)%nat.
Proof. unfold transfers_made. by rewrite List.filter_app, length_app. Qed.

Lemma transfers_made_snoc t ev :
  transfers_made (t ++ [ev]) = (transfers_made t + if is_transfer ev then 1 else 0)%nat.
Proof. rewrite transfers_made_app. by destruct ev. Qed.

Section AlreadyThere.
Context (session : DownloadSession) (filename : string) (size : Z) (k : nat).
Hypothesis reported :
  ∀ t u total, session_get_filesize session t u = inr total → total = size.

Ltac close_already_there :=
  cbv [already_there files trace] in *; cbn [fst snd] in *;
  repeat match goal with H : _ ∧ _ |- _ => destruct H end;
  try match goal with
      | H1 : session_get_filesize _ _ _ = inr ?z, H2 : (_ =? ?z) = false |- _ =>
          apply reported in H1; apply Z.eqb_neq in H2; congruence
      end;
  repeat split; try (intros ? [=]); try done;
  rewrite ?transfers_made_snoc; cbn [is_transfer]; lia.

Lemma locked_section_already_there self fuel url db_path throttle w :
  already_there filename size k w →
  let r := locked_section self session fuel url db_path throttle filename w in
  already_there filename size k (snd r) ∧ ∀ name, fst r ≠ Return (Some name).
Proof.
  destruct w as [lk lg tm fs ca sem ck tr]. intros [Hfile Hk]. cbn [files trace] in Hfile, Hk.
  unfold_coroutine.
  repeat (first [rewrite Hfile | split_branch]; unfold_coroutine).
  all: close_already_there.
Qed.

Lemma on_failure_already_there url e w :
  already_there filename size k w →
  already_there filename size k (snd (on_failure url filename e w)).
Proof.
  destruct w as [lk lg tm fs ca sem ck tr]. intros [Hfile Hk]. cbn [files trace] in Hfile, Hk.
  run_coroutine. all: close_already_there.
Qed.

Lemma download_file_wrapped_already_there self fuel url w :
  already_there filename size k w →
  already_there filename size k (snd (download_file_wrapped self session fuel filename url w)).
Proof.
  intros Hw.
  unfold download_file_wrapped, init_attempt.
  unfold bind at 1. unfold modify at 1.
  set (w0 := set_current_attempt _ w).
  assert (H0 : already_there filename size k w0) by done.
  unfold bind at 1.
  pose proof (db_path_of_world url w0) as Hdb.
  destruct (db_path_of url w0) as [[db_path|e|] w0']; cbn in Hdb; subst w0'; [|done..].
  unfold bind at 1, sql_check_existing, get.
  destruct (completed_in (ledger w0) db_path); [done|].
  unfold try_except, bind at 1, with_semaphore.
  destruct (semaphore w0) as [|permits] eqn:Hsem; [done|].
  unfold finally.
  set (w1 := set_semaphore _ w0).
  assert (H1 : already_there filename size k w1) by done.
  destruct (locked_section_already_there self fuel url db_path
              (client_throttle (client self)) w1 H1) as [H2 Hnone].
  destruct (locked_section self session fuel url db_path _ filename w1)
    as [[[name|]|e|] w2]; cbn [fst snd] in *.
  - by destruct (Hnone name).
  - done.
  - destruct (caught_by_download_file e); cbn; [|done].
    by apply on_failure_already_there.
  - done.
Qed.

Lemma download_file_already_there base self fuel url w :
  already_there filename size k w →
  already_there filename size k (snd (download_file base self session fuel url filename w)).
Proof.
  intros Hw. unfold download_file.
  apply (retry_invariant (already_there filename size k)); [| |by auto using download_file_wrapped_already_there|done].
  - intros u W [Hf Ht]. split; [done|].
    unfold log; cbn [trace]. rewrite transfers_made_snoc. cbn [is_transfer]. lia.
  - by intros g W [Hf Ht].
Qed.
End AlreadyThere.

Lemma download_file_of_completed_path base self session fuel url filename w path :
  normalized_path url = Some path → completed_in (ledger w) path = true →
  download_file base self session fuel url filename w
  = (Return tt, set_current_attempt (init_counter (url_str url)) (log (EvAttempt url) w)).
Proof.
  intros Hpath Hdone. unfold download_file.
  destruct fuel; cbn [retry]; unfold bind at 1; unfold modify at 1; unfold try_except;
    unfold download_file_wrapped, init_attempt, db_path_of, bind, modify, sql_check_existing, get;
    rewrite Hpath; cbn; by rewrite Hdone.
Qed.

Lemma get_filename_quiet base self session url w :
  let w' := snd (get_filename base self session url w) in
  files w' = files w ∧ ledger w' = ledger w
  ∧ transfers_made (trace w') = transfers_made (trace w).
Proof.
  destruct w as [lk lg tm fs ca sem ck tr].
  cbv beta iota zeta delta
    [get_filename except_failure ask_filename ask_content_type
     bind ret raise try_except tick log files ledger trace clock];
    cbn [fst snd].
  repeat (split_branch;
          cbv beta iota zeta delta
            [bind ret raise try_except tick log files ledger trace clock]; cbn [fst snd]).
  all: repeat split; rewrite ?transfers_made_snoc; cbn [is_transfer]; lia.
Qed.

(** C5: a link whose normalized source path is marked completed in the
    ledger, or whose resolved file is on disk at the size the server
    reports, goes through the pipeline of [download_and_store]
    (filename resolution, exclusion, [download_file] with its retries)
    without one call of [session.download_file], however the session
    answers otherwise and however much fuel the run gets. *)
Theorem dedup_makes_no_transfer base self session fuel url referral w :
  (∃ path, normalized_path url = Some path ∧ completed_in (ledger w) path = true)
  ∨ (∃ size,
       (∀ t u total, session_get_filesize session t u = inr total → total = size)
       ∧ ∀ name, fst (get_filename base self session url w) = Return name →
                 files w !! name = Some size) →
  transfers_made (trace (snd (download_and_store base self session fuel (url, referral) w)))
  = transfers_made (trace w).
Proof.
  intros Hskip. unfold download_and_store. cbn [fst].
  unfold try_except, bind.
  destruct (get_filename_quiet base self session url w) as (Hfiles & Hledger & Htrace).
  cbn zeta in *.
  destruct (get_filename base self session url w) as [[name|e|] w1]; cbn [fst snd] in *;
    [|done..].
  destruct (check_exclude base self name); [|done].
  assert (transfers_made
            (trace (snd (download_file base self session fuel url name w1)))
          = transfers_made (trace w)) as Hsame.
  { destruct Hskip as [(path & Hpath & Hdone)|(size & Hreported & Hfile)].
    - rewrite (download_file_of_completed_path _ _ _ _ _ _ _ path Hpath)
        by by rewrite Hledger.
      unfold log; cbn [snd trace set_current_attempt].
      rewrite transfers_made_snoc. cbn [is_transfer]. lia.
    - apply (download_file_already_there session name size (transfers_made (trace w))
               Hreported base self fuel url w1).
      split; [|done]. rewrite Hfiles. by apply Hfile. }
  by destruct (download_file base self session fuel url name w1) as [[[]|?|] ?].
Qed.

Lemma dedup_makes_no_transfer_witness :
  transfers_made
    (trace (snd (download_and_store some_base (a_downloader 3 false) (good_session 10) 5
                   (mkURL "https" "example.com" "/a.jpg",
                    mkURL "https" "example.com" "/album")
                   (with_files [("a.jpg", 10)] (empty_world 1)))))
  = transfers_made (trace (with_files [("a.jpg", 10)] (empty_world 1))).
Proof.
  apply dedup_makes_no_transfer. right. exists 10. split.
  - intros t u total [= <-]. reflexivity.
  - intros name Hname. vm_compute in Hname. injection Hname as <-.
    vm_compute. reflexivity.
Defined.

(** ** Releasing the lock *)

(** While the lock on its filename is held, a link whose path is not
    completed waits, whatever the fuel. *)
Lemma download_file_wrapped_blocked self session fuel url filename w path :
  normalized_path url = Some path → completed_in (ledger w) path = false →
  semaphore w ≠ 0%nat → filename ∈ locks w →
  fst (download_file_wrapped self session fuel filename url w) = Pending.
Proof.
  intros Hpath Hnew Hsem Hheld.
  destruct (semaphore w) as [|permits] eqn:Hpermits; [done|].
  unfold download_file_wrapped, init_attempt, db_path_of, sql_check_existing.
  rewrite Hpath. unfold bind at 1, modify at 1. unfold bind at 1, ret at 1.
  unfold bind at 1, get at 1. cbn [ledger set_current_attempt]. rewrite Hnew.
  unfold try_except, bind at 1, with_semaphore. cbn [semaphore set_current_attempt].
  rewrite Hpermits. unfold finally, locked_section. unfold bind at 1.
  rewrite lock_wait_eq. cbn [locks set_semaphore set_current_attempt].
  by rewrite bool_decide_eq_true_2.
Qed.

Lemma held_lock_blocks base self session fuel url filename w path :
  normalized_path url = Some path → completed_in (ledger w) path = false →
  semaphore w ≠ 0%nat → filename ∈ locks w →
  fst (download_file base self session fuel url filename w) = Pending.
Proof.
  intros Hpath Hnew Hsem Hheld. unfold download_file.
  pose proof (download_file_wrapped_blocked self session fuel url filename
                (log (EvAttempt url) w) path Hpath Hnew Hsem Hheld) as Hblocked.
  destruct fuel; cbn [retry]; unfold bind at 1; unfold modify at 1; unfold try_except;
    by destruct (download_file_wrapped _ _ _ _ _ _) as [[?|?|] ?].
Qed.

(** C2 fails on the code at both [return]s inside the [with] block.
    In mark-downloaded mode (line 136) and when the complete file has
    the size the server reports (line 116) the coroutine returns with
    the lock of line 105 still in the table: the trace of either run
    holds the [add_lock] and no [remove_lock].  A later link that
    resolves to the same filename then waits at line 103 for good. *)
Theorem early_returns_keep_the_lock :
  let u := mkURL "https" "example.com" "/a.jpg" in
  let marked := download_file some_base (a_downloader 3 true) (good_session 10) 5 u "a.jpg"
                              (empty_world 1) in
  let matched := download_file some_base (a_downloader 3 false) (good_session 10) 5 u "a.jpg"
                               (with_files [("a.jpg", 10)] (empty_world 1)) in
  (fst marked = Return tt
   ∧ elements (locks (snd marked)) = ["a.jpg"]
   ∧ trace (snd marked)
     = [EvAttempt u; EvAddLock "a.jpg";
        EvInsertFile "/a.jpg" "a.jpg" false; EvUpdateFile "/a.jpg" "a.jpg" true])
  ∧ (fst matched = Return tt
     ∧ elements (locks (snd matched)) = ["a.jpg"]
     ∧ trace (snd matched)
       = [EvAttempt u; EvAddLock "a.jpg"; EvGetFilesize u 0;
          EvInsertFile "/a.jpg" "a.jpg" true])
  ∧ ∀ fuel, fst (download_file some_base (a_downloader 3 false) (good_session 10) fuel
                   (mkURL "https" "example.com" "/other/a.jpg") "a.jpg" (snd matched))
            = Pending.
Proof.
  split; [vm_compute; repeat split; reflexivity|].
  split; [vm_compute; repeat split; reflexivity|].
  intros fuel. apply held_lock_blocks with "/other/a.jpg".
  - reflexivity.
  - vm_compute. reflexivity.
  - vm_compute. discriminate.
  - apply elem_of_elements. vm_compute. left.
Qed.

(** For comparison, the exits that do release: a finished transfer and
    a failed one. *)
Example transfer_exits_release_the_lock :
  let u := mkURL "https" "example.com" "/a.jpg" in
  let done := download_file some_base (a_downloader 3 false) (good_session 10) 5 u "a.jpg"
                            (empty_world 1) in
  let failed := download_file some_base (a_downloader 1 false) dead_session 5 u "a.jpg"
                              (empty_world 1) in
  (fst done = Return tt ∧ elements (locks (snd done)) = [])
  ∧ (fst failed = Raise (FailureException 1) ∧ elements (locks (snd failed)) = []).
Proof. vm_compute. repeat split; reflexivity. Qed.

(** ** Two tasks on one filename *)

Import Interleaving.


Lemma holders_insert name ts i t t' :
  ts !! i = Some t →
  (length (filter (holds name) (<[i:=t']> ts)) + (if decide (holds name t) then 1 else 0)
   = length (filter (holds name) ts) + (if decide (holds name t') then 1 else 0))%nat.
Proof.
  revert i. induction ts as [|x ts IH]; intros [|i] Hi; try done; cbn in Hi.
  - injection Hi as ->. change (<[0%nat:=t']> (t :: ts)) with (t' :: ts).
    rewrite !filter_cons. repeat case_decide; cbn [length]; try tauto; lia.
  - change (<[S i:=t']> (x :: ts)) with (x :: <[i:=t']> ts).
    rewrite !filter_cons. specialize (IH i Hi).
    repeat case_decide; cbn [length]; try tauto; lia.
Qed.

(** Replacing one task keeps the invariant when a task becomes a
    holder only of a name that was free and is held now, and a name
    is not freed under a task whose holding did not change. *)
Lemma exclusive_after c i t t' w' :
  tasks c !! i = Some t → exclusive c → at_line t' ≠ AtAdd →
  (∀ name, holds name t' → ¬ holds name t →
           (name ∉ locks (world c)) ∧ (name ∈ locks w')) →
  (∀ name, (holds name t ↔ holds name t') → name ∉ locks w' → name ∉ locks (world c)) →
  exclusive (mkConfig (<[i:=t']> (tasks c)) w').
Proof.
  intros Hi [Hadd Hex] Ht' Hnew Hsame. split; [by apply Forall_insert|].
  intros name. unfold holders in *. cbn [tasks world].
  pose proof (holders_insert name (tasks c) i t t' Hi) as Hcount.
  destruct (Hex name) as [Hone Hfree]. specialize (Hnew name). specialize (Hsame name).
  destruct (decide (holds name t)) as [Hold|Hold], (decide (holds name t')) as [Hold'|Hold'].
  - split; [lia|]. intros Hn. rewrite <- Hfree; [lia|]. apply Hsame; [tauto|done].
  - split; [lia|]. intros _. lia.
  - destruct (Hnew Hold' Hold) as [Hwas Hnow]. specialize (Hfree Hwas).
    split; [lia|]. by intros [].
  - split; [lia|]. intros Hn. rewrite <- Hfree; [lia|]. apply Hsame; [tauto|done].
Qed.

Lemma step_atomic_exclusive c choice :
  exclusive c → exclusive (step step_task_atomic c choice).
Proof.
  intros Hex. destruct choice as [i how]. unfold step. cbn [fst snd].
  destruct (tasks c !! i) as [t|] eqn:Hi; [|done].
  assert (Ht : at_line t ≠ AtAdd).
  { destruct Hex as [Hadd _]. rewrite Forall_forall in Hadd.
    apply Hadd. by eapply list_elem_of_lookup_2. }
  destruct t as [fn pc]. cbn in Ht.
  unfold step_task_atomic, step_task; cbn [at_line filename].
  destruct pc; try done.
  - (* line 103 *)
    unfold result_of, check_lock, get; cbn [fst].
    case_bool_decide as Hheld.
    + apply (exclusive_after c i _ _ _ Hi Hex); [done| |done].
      by intros name [_ [=]].
    + unfold exec, add_lock, modify; cbn [snd].
      apply (exclusive_after c i _ _ _ Hi Hex); [done| |]; cbn [locks log set_locks].
      * intros name [<- _] _. cbn. split; [done|set_solver].
      * intros name _. set_solver.
  - (* line 104 *)
    apply (exclusive_after c i _ _ _ Hi Hex); [done| |done].
    by intros name [_ [=]].
  - (* lines 107-157 *)
    destruct how.
    + unfold exec, remove_lock, modify; cbn [snd].
      apply (exclusive_after c i _ _ _ Hi Hex); [done| |]; cbn [locks log set_locks].
      * by intros name [_ [=]].
      * intros name Hsame Hn. unfold holds in Hsame; cbn in Hsame.
        assert (fn ≠ name).
        { intros ->. destruct (proj1 Hsame) as [_ [=]]. by split. }
        intros Hin. apply Hn, elem_of_difference. split; [done|].
        by intros ->%elem_of_singleton.
    + apply (exclusive_after c i _ _ _ Hi Hex); [done| |done].
      by intros name [_ [=]].
  - (* over *)
    rewrite list_insert_id by done. by destruct c.
Qed.

(** What C1 asks for holds of the same tasks once line 103's last
    check and line 105 are one step: from a start where every task
    is about to check, no schedule brings two tasks between lock
    acquisition and the end of their transfer for one filename. *)
Theorem atomic_test_and_set_excludes c schedule name :
  Forall (fun t => at_line t = AtCheck) (tasks c) →
  (length (holders name (run step_task_atomic c schedule)) ≤ 1)%nat.
Proof.
  intros Hstart.
  assert (Hex : exclusive c).
  { split; [by eapply Forall_impl; [exact Hstart|]; intros t ->|].
    intros n. assert (holders n c = []) as ->; [|cbn; split; [lia|done]].
    unfold holders. induction Hstart as [|t ts Ht _ IH]; [done|].
    rewrite filter_cons. case_decide as H; [|done]. destruct H as [_ H]. congruence. }
  revert c Hstart Hex. unfold run.
  induction schedule as [|choice schedule IH]; intros c _ Hex; cbn [fold_left].
  - apply Hex.
  - assert (Hgo : ∀ c', exclusive c' →
              (length (holders name (fold_left (step step_task_atomic) schedule c')) ≤ 1)%nat).
    { clear -schedule. revert schedule. induction schedule as [|ch sch IH]; intros c' Hc'; cbn.
      - apply Hc'.
      - apply IH. by apply step_atomic_exclusive. }
    apply Hgo. by apply step_atomic_exclusive.
Qed.

(** * Further properties of the module *)

(** ** More on the retry decorator *)

Lemma retry_out_of_fuel {A} base self (f : URL → M A) url w c w1 n :
  f url (log (EvAttempt url) w) = (Raise (FailureException c), w1) →
  current_attempt w1 !! url_str url = Some n →
  (disable_attempt_limit self = true ∨ n < attempts self - 1) →
  retry base self 0 f url w
  = (Pending, set_current_attempt (fun a => <[url_str url := n + 1]> a) w1).
Proof.
  intros Hf Hn Hlimit.
  cbn [retry]. unfold bind at 1. unfold modify at 1. unfold try_except. rewrite Hf.
  unfold bind at 1. unfold read_attempt. rewrite Hn.
  assert ((negb (disable_attempt_limit self) && (attempts self - 1 <=? n))%bool = false) as ->.
  { destruct Hlimit as [->|Hlt]; [done|]. apply andb_false_iff. right. lia. }
  done.
Qed.

(** With the attempt limit disabled the decorator never gives up on an
    action that fails every time and keeps the counters as lines 79-80
    do: it never raises, and every further round it is allowed brings
    one more call of the action. *)
Theorem retry_unlimited_never_gives_up {A} base self (f : URL → M A)
    (I : World → Prop) fuel url w :
  disable_attempt_limit self = true →
  (∀ w ev, I w → I (log ev w)) →
  (∀ w g, I w → I (set_current_attempt g w)) →
  (∀ u w, I w →
     ∃ c w', f u w = (Raise (FailureException c), w') ∧ I w'
             ∧ is_Some (current_attempt w' !! url_str u)
             ∧ attempts_made (trace w') = attempts_made (trace w)) →
  I w →
  fst (retry base self fuel f url w) = Pending
  ∧ attempts_made (trace (snd (retry base self fuel f url w)))
    = (attempts_made (trace w) + S fuel)%nat.
Proof.
  intros Hlimit Hlog Hcount Hfails. revert url w.
  induction fuel as [|fuel IH]; intros url w Hw;
    destruct (Hfails url (log (EvAttempt url) w)) as (c & w1 & Hf & Hw1 & [n Hn] & Htr);
    try by apply Hlog.
  - rewrite (retry_out_of_fuel _ _ _ _ _ _ _ _ Hf Hn) by by left.
    cbn [fst snd trace set_current_attempt].
    rewrite Htr, attempts_made_log. cbn [is_attempt]. split; [done|lia].
  - rewrite (retry_again _ _ _ _ _ _ _ _ _ Hf Hn) by by left.
    destruct (IH (mirror base url)
                (set_current_attempt (λ a, <[url_str url := n + 1]> a) w1)) as [Hp Ha];
      [by apply Hcount|].
    split; [done|]. rewrite Ha. cbn [trace set_current_attempt].
    rewrite Htr, attempts_made_log. cbn [is_attempt]. lia.
Qed.

Lemma always_failing_fails u w :
  ∃ c w', always_failing u w = (Raise (FailureException c), w') ∧ True
          ∧ is_Some (current_attempt w' !! url_str u)
          ∧ attempts_made (trace w') = attempts_made (trace w).
Proof.
  eexists 0, _. unfold always_failing, bind, init_attempt, modify, raise.
  split; [reflexivity|]. split; [done|]. split; [|done].
  cbn. unfold init_counter. destruct (current_attempt w !! _) eqn:E; [by rewrite E|].
  rewrite lookup_insert_eq. done.
Qed.

Lemma retry_unlimited_never_gives_up_witness :
  fst (retry some_base
         (mkDownloader (mkAlbum []) "album" (mkClient 0) 3 true false
                       (mkExcludes false false false false) 1 [])
         7 always_failing (mkURL "https" "fs-05.cyberdrop.to" "/video.mp4") (empty_world 1))
  = Pending.
Proof.
  refine (proj1 (retry_unlimited_never_gives_up some_base _ always_failing (fun _ => True)
                   7 (mkURL "https" "fs-05.cyberdrop.to" "/video.mp4") (empty_world 1)
                   _ _ _ _ _)); try done.
  intros u w _. apply always_failing_fails.
Defined.

(** A decorated action that fails without having set up the counter of
    its URL does not get a retry: the decorator's read of
    [self.current_attempt[str(url)]] raises [KeyError], whether the
    attempt limit is disabled or not. *)
Theorem retry_of_uncounted_failure {A} base self fuel (f : URL → M A) url w c w1 :
  f url (log (EvAttempt url) w) = (Raise (FailureException c), w1) →
  current_attempt w1 !! url_str url = None →
  retry base self fuel f url w = (Raise OtherError, w1).
Proof.
  intros Hf Hn.
  destruct fuel; cbn [retry]; unfold bind at 1; unfold modify at 1; unfold try_except;
    rewrite Hf; unfold bind at 1; unfold read_attempt; by rewrite Hn.
Qed.

Lemma retry_of_uncounted_failure_witness :
  retry (A := unit) some_base (a_downloader 3 false) 4 (fun _ => raise (FailureException 0))
        (mkURL "https" "example.com" "/a.jpg") (empty_world 1)
  = (Raise OtherError, log (EvAttempt (mkURL "https" "example.com" "/a.jpg")) (empty_world 1)).
Proof. by apply (retry_of_uncounted_failure _ _ _ _ _ _ 0). Defined.

(** ** Part files *)

Lemma join_split sep s : Str.join (String sep "") (Str.split sep s) = s.
Proof.
  induction s as [|c s IH]; [done|]. cbn [Str.split].
  pose proof (split_nonempty sep s) as Hne.
  destruct (Ascii.eqb_spec c sep) as [->|_].
  - destruct (Str.split sep s) as [|p ps]; [done|].
    cbn [Str.join]. cbn [Str.join] in IH. by rewrite IH.
  - destruct (Str.split sep s) as [|p ps]; [done|].
    cbn [Str.join] in *. destruct ps; [by rewrite IH|].
    by rewrite string_app_cons, IH.
Qed.

Lemma join_snoc sep l a :
  l ≠ [] → Str.join sep (l ++ [a]) = Str.join sep l +:+ sep +:+ a.
Proof.
  induction l as [|p l IH]; [done|]. intros _.
  destruct l as [|q l]; [done|].
  change ((p :: q :: l) ++ [a]) with (p :: ((q :: l) ++ [a])).
  cbn [Str.join app]. cbn [Str.join app] in IH.
  destruct (l ++ [a]) eqn:E; [by destruct l|].
  rewrite IH by done. by rewrite !string_app_assoc.
Qed.

Lemma stem_suffix name : Path.stem name +:+ Path.suffix name = name.
Proof.
  unfold Path.stem, Path.suffix.
  destruct (Path.has_suffix name) eqn:H; [|by rewrite string_app_nil_r].
  unfold Path.has_suffix in H.
  apply andb_prop in H as [[Hlen%bool_decide_eq_true Hstem]%andb_prop _].
  unfold Str.last_piece.
  destruct (List.exists_last (l := Str.split "."%char name)) as (l & a & E);
    [apply split_nonempty|].
  rewrite E in *. rewrite List.removelast_last, List.last_last in *.
  transitivity (Str.join "." (l ++ [a])); [|by rewrite <- E, (join_split "."%char)].
  rewrite join_snoc; [done|]. intros ->. cbn in Hlen. lia.
Qed.

Lemma part_file_eq name : part_file name = name +:+ ".part".
Proof.
  unfold part_file, Path.with_suffix.
  by rewrite <- string_app_assoc, stem_suffix.
Qed.

Lemma part_file_ne name : part_file name ≠ name.
Proof.
  rewrite part_file_eq. intros H. apply (f_equal String.length) in H.
  rewrite string_app_length in H. cbn in H. lia.
Qed.

(** ** A link seen for the first time *)

Lemma locked_section_fresh self session fuel url db_path throttle filename w wr rs :
  mark_downloaded self = false →
  filename ∉ locks w →
  files w !! filename = None → files w !! part_file filename = None →
  session_download_file session (clock w) url = mkTransfer wr rs →
  locked_section self session fuel url db_path throttle filename w
  = (match rs with Some e => Raise e | None => Return (Some filename) end,
     after_transfer self url db_path throttle filename None wr w).
Proof.
  intros Hmark Hfree Hfile Hpart Hsession.
  destruct w as [lk lg tm fs ca sem ck tr]. cbn [locks files clock] in *.
  unfold after_transfer. unfold_coroutine.
  rewrite lock_wait_eq. cbn [locks]. rewrite bool_decide_eq_false_2 by done.
  unfold_coroutine. rewrite Hfile, Hpart.
  rewrite !bool_decide_eq_false_2 by (by intros [? [=]]).
  cbn [orb]. unfold_coroutine. rewrite Hmark. unfold_coroutine. rewrite Hpart, Hsession.
  cbn. by destruct wr, rs.
Qed.

Lemma download_file_wrapped_fresh self session fuel filename url w path wr rs :
  normalized_path url = Some path → completed_in (ledger w) path = false →
  semaphore w ≠ 0%nat → mark_downloaded self = false →
  filename ∉ locks w →
  files w !! filename = None → files w !! part_file filename = None →
  session_download_file session (clock w) url = mkTransfer wr rs →
  let w' := after_transfer self url path (client_throttle (client self)) filename None wr
              (set_current_attempt (init_counter (url_str url)) w) in
  download_file_wrapped self session fuel filename url w
  = match rs with
    | None => (rename_file filename path;; remove_lock filename) w'
    | Some e => (if caught_by_download_file e then on_failure url filename e else raise e) w'
    end.
Proof.
  intros Hpath Hnew Hsem Hmark Hfree Hfile Hpart Hsession w'.
  destruct (semaphore w) as [|permits] eqn:Hpermits; [done|].
  unfold download_file_wrapped, init_attempt, db_path_of, sql_check_existing.
  rewrite Hpath. unfold bind at 1, modify at 1. unfold bind at 1, ret at 1.
  unfold bind at 1, get at 1. cbn [ledger set_current_attempt]. rewrite Hnew.
  unfold try_except, bind at 1, with_semaphore. cbn [semaphore set_current_attempt].
  rewrite Hpermits. unfold finally.
  rewrite (locked_section_fresh _ _ _ _ _ _ _ _ wr rs) by done.
  subst w'. destruct w as [lk lg tm fs ca sem ck tr]. cbn [semaphore] in Hpermits. subst sem.
  destruct rs as [e|], wr; try reflexivity.
  all: unfold after_transfer; run_coroutine; reflexivity.
Qed.

Lemma lock_given_back (name : string) (l : gset string) :
  name ∉ l → ({[name]} ∪ l) ∖ {[name]} = l.
Proof.
  intros Hfree. apply set_eq. intros x.
  rewrite elem_of_difference, elem_of_union, elem_of_singleton.
  split; [tauto|]. intros Hx. split; [tauto|]. by intros ->.
Qed.

Lemma retry_passes {A} base self fuel (f : URL → M A) url w r w1 :
  f url (log (EvAttempt url) w) = (r, w1) →
  (∀ c, r ≠ Raise (FailureException c)) →
  retry base self fuel f url w = (r, w1).
Proof.
  intros Hf Hr.
  destruct fuel; cbn [retry]; unfold bind at 1; unfold modify at 1; unfold try_except;
    rewrite Hf; destruct r as [a|[c| |]|]; try done; by destruct (Hr c).
Qed.

(** The one attempt of such a run, step by step. *)
Lemma download_file_fresh_run base self session fuel url filename w path size :
  normalized_path url = Some path →
  completed_in (ledger w) path = false →
  semaphore w ≠ 0%nat → mark_downloaded self = false →
  filename ∉ locks w →
  files w !! filename = None → files w !! part_file filename = None →
  session_download_file session (clock w) url = mkTransfer (Some size) None →
  download_file base self session fuel url filename w
  = (Return tt,
     log (EvRemoveLock filename)
       (set_locks (fun l => l ∖ {[filename]})
          (log (EvUpdateFile path filename true)
             (set_ledger (fun l => <[path := (filename, true)]> l)
                (set_files (fun f => <[filename := size]> (delete (part_file filename) f))
                   (after_transfer self url path (client_throttle (client self)) filename
                      None (Some size)
                      (set_current_attempt (init_counter (url_str url))
                         (log (EvAttempt url) w)))))))).
Proof.
  intros Hpath Hnew Hsem Hmark Hfree Hfile Hpart Hsession.
  pose proof (download_file_wrapped_fresh self session fuel filename url
                (log (EvAttempt url) w) path (Some size) None
                Hpath Hnew Hsem Hmark Hfree Hfile Hpart Hsession) as Hrun.
  cbn zeta in Hrun.
  pose proof (part_file_ne filename) as Hne.
  unfold download_file. apply retry_passes; [|done]. rewrite Hrun. clear Hrun.
  destruct w as [lk lg tm fs ca sem ck tr]. cbn [locks ledger files semaphore clock trace] in *.
  unfold after_transfer. unfold_coroutine.
  rewrite lookup_insert_eq, lookup_insert_ne, Hfile by done.
  rewrite (bool_decide_eq_false_2 (is_Some None)) by (by intros [? [=]]).
  reflexivity.
Qed.

(** A link seen for the first time, whose name is free in the folder
    and in the lock table, with a session that streams the file whole:
    [download_file] returns after one attempt; the file stands under
    its name at the streamed size and the part file is gone, the path
    is completed in the ledger under that name, the lock is given
    back and so is the permit of the semaphore.  The lock is taken
    before the ledger is written and released after the rename. *)
Theorem download_file_stores_a_new_file base self session fuel url filename w path size :
  normalized_path url = Some path →
  completed_in (ledger w) path = false →
  semaphore w ≠ 0%nat → mark_downloaded self = false →
  filename ∉ locks w →
  files w !! filename = None → files w !! part_file filename = None →
  session_download_file session (clock w) url = mkTransfer (Some size) None →
  let r := download_file base self session fuel url filename w in
  fst r = Return tt
  ∧ files (snd r) = <[filename := size]> (files w)
  ∧ ledger (snd r) = <[path := (filename, true)]> (ledger w)
  ∧ locks (snd r) = locks w
  ∧ semaphore (snd r) = semaphore w
  ∧ trace (snd r)
    = trace w ++ [EvAttempt url; EvAddLock filename; EvInsertFile path filename false;
                  EvInsertTemp (part_file filename);
                  EvDownload url (host_throttle self url (client_throttle (client self))) None
                             filename filename (part_file filename) 0;
                  EvUpdateFile path filename true; EvRemoveLock filename].
Proof.
  intros Hpath Hnew Hsem Hmark Hfree Hfile Hpart Hsession r. subst r.
  rewrite (download_file_fresh_run _ _ _ _ _ _ _ path size) by done.
  destruct w as [lk lg tm fs ca sem ck tr]. cbn [locks ledger files semaphore clock trace] in *.
  unfold after_transfer. unfold_coroutine.
  split; [done|]. split.
  { by rewrite delete_insert_eq, delete_id. }
  split.
  { unfold insert_record. destruct (lg !! path); [done|]. by rewrite insert_insert_eq. }
  split; [by apply lock_given_back|]. split; [done|].
  by rewrite <- !(assoc_L (++)).
Qed.

Lemma download_file_stores_a_new_file_witness :
  let r := download_file some_base (a_downloader 3 false) (good_session 10) 5
                         (mkURL "https" "example.com" "/a.jpg") "a.jpg" (empty_world 1) in
  fst r = Return tt
  ∧ files (snd r) = <["a.jpg" := 10]> ∅
  ∧ ledger (snd r) = <["/a.jpg" := ("a.jpg", true)]> ∅.
Proof.
  destruct (download_file_stores_a_new_file some_base (a_downloader 3 false) (good_session 10) 5
              (mkURL "https" "example.com" "/a.jpg") "a.jpg" (empty_world 1) "/a.jpg" 10)
    as (Hret & Hfiles & Hledger & _); done.
Defined.

(** The same link, with a session whose transfer ends in an error of
    the 400 range other than 429 and a host that is not of
    media-files.bunkr: the except clause of [download_file] returns.
    The decorator sees no failure, so there is one attempt and no
    retry; nothing is raised, the lock is given back, no file stands
    under the name and the path is left uncompleted in the ledger. *)
Theorem download_file_drops_a_client_error
    base self session fuel url filename w path wr e code :
  normalized_path url = Some path →
  completed_in (ledger w) path = false →
  semaphore w ≠ 0%nat → mark_downloaded self = false →
  filename ∉ locks w →
  files w !! filename = None → files w !! part_file filename = None →
  session_download_file session (clock w) url = mkTransfer wr (Some e) →
  caught_by_download_file e = true → exn_code e = Some code →
  400 ≤ code < 500 → code ≠ 429 →
  Str.contains "media-files.bunkr" (host url) = false →
  let r := download_file base self session fuel url filename w in
  fst r = Return tt
  ∧ attempts_made (trace (snd r)) = (attempts_made (trace w) + 1)%nat
  ∧ locks (snd r) = locks w
  ∧ semaphore (snd r) = semaphore w
  ∧ files (snd r) !! filename = None
  ∧ completed_in (ledger (snd r)) path = false.
Proof.
  intros Hpath Hnew Hsem Hmark Hfree Hfile Hpart Hsession Hcaught Hcode Hrange H429 Hhost r.
  pose proof (download_file_wrapped_fresh self session fuel filename url
                (log (EvAttempt url) w) path wr (Some e)
                Hpath Hnew Hsem Hmark Hfree Hfile Hpart Hsession) as Hrun.
  cbv beta iota zeta in Hrun. rewrite Hcaught in Hrun.
  pose proof (part_file_ne filename) as Hne.
  destruct w as [lk lg tm fs ca sem ck tr]. cbn [locks ledger files semaphore clock trace] in *.
  assert ((400 <=? code) && (code <? 500) && negb (code =? 429) = true)%bool as Hband
    by (rewrite !andb_true_iff, negb_true_iff; repeat split; lia).
  assert (exn_code e = Some code) as Hcode' by done.
  destruct e as [c|[c|]|]; try done; cbn in Hcode'; injection Hcode' as ->.
  all: revert Hrun; unfold after_transfer; unfold_coroutine; rewrite Hhost, Hband.
  all: unfold_coroutine; intros Hrun; subst r; unfold download_file.
  all: rewrite (retry_passes base self fuel _ url (mkWorld lk lg tm fs ca sem ck tr) _ _ Hrun)
    by done.
  all: cbn [fst snd]; split; [done|]; split;
    [destruct wr; cbn [trace]; rewrite !attempts_made_app; cbn; lia|].
  all: split; [destruct wr; by apply lock_given_back|]; split; [by destruct wr|]; split;
    [destruct wr; cbn [files]; [by rewrite lookup_insert_ne|done]|].
  all: destruct wr; cbn [ledger]; unfold insert_record, completed_in in *;
    destruct (lg !! path) as [[? []]|] eqn:E; rewrite ?E, ?lookup_insert_eq; done.
Qed.

Lemma download_file_drops_a_client_error_witness :
  let r := download_file some_base (a_downloader 3 false) not_found_session 5
                         (mkURL "https" "example.com" "/a.jpg") "a.jpg" (empty_world 1) in
  fst r = Return tt ∧ attempts_made (trace (snd r)) = 1%nat.
Proof.
  destruct (download_file_drops_a_client_error some_base (a_downloader 3 false)
              not_found_session 5
              (mkURL "https" "example.com" "/a.jpg") "a.jpg" (empty_world 1) "/a.jpg"
              None (ClientError (Some 404)) 404)
    as (Hret & Hattempts & _); done.
Defined.

(** ** What the attempts of one run have in common *)

(** One round of the decorator. *)
Lemma retry_eq {A} base self fuel (f : URL → M A) url w :
  retry base self fuel f url w
  = match f url (log (EvAttempt url) w) with
    | (Raise (FailureException c), w1) =>
        match current_attempt w1 !! url_str url with
        | None => (Raise OtherError, w1)
        | Some n =>
            if (negb (disable_attempt_limit self) && (attempts self - 1 <=? n))%bool
            then (Raise (FailureException c), w1)
            else
              let w2 := set_current_attempt (fun a => <[url_str url := n + 1]> a) w1 in
              match fuel with
              | O => (Pending, w2)
              | S fuel' => retry base self fuel' f (mirror base url) w2
              end
        end
    | r => r
    end.
Proof.
  destruct fuel; cbn [retry]; unfold bind at 1; unfold modify at 1; unfold try_except;
    destruct (f url (log (EvAttempt url) w)) as [[a|[c| |]|] w1]; try done;
    unfold bind at 1; unfold read_attempt;
    destruct (current_attempt w1 !! url_str url); try done;
    by destruct (negb _ && _)%bool.
Qed.

(** What holds of every exception an attempt raises, and of the
    [KeyError] of the decorator, holds of what the loop raises. *)
Lemma retry_raises {A} (P : exn → World → Prop) base self (f : URL → M A) :
  (∀ u w e w', f u w = (Raise e, w') → P e w') →
  (∀ w, P OtherError w) →
  ∀ fuel u w e w', retry base self fuel f u w = (Raise e, w') → P e w'.
Proof.
  intros Hf Hkey fuel.
  induction fuel as [|fuel IH]; intros u w e w'; rewrite retry_eq;
    specialize (Hf u (log (EvAttempt u) w));
    destruct (f u (log (EvAttempt u) w)) as [[a|e0|] w1]; try done;
    try (intros [= <- <-]; by apply Hf);
    destruct e0; try (intros [= <- <-]; by apply Hf);
    (destruct (current_attempt w1 !! url_str u); [|intros [= <- <-]; by apply Hkey]);
    (destruct (negb _ && _)%bool; [intros [= <- <-]; by apply Hf|]); cbn zeta.
  - done.
  - apply IH.
Qed.

(** An invariant of every attempt that comes to an end holds when the
    loop comes to an end. *)
Lemma retry_unless_pending {A} (J : World → Prop) base self (f : URL → M A) :
  (∀ u w, J w → J (log (EvAttempt u) w)) →
  (∀ g w, J w → J (set_current_attempt g w)) →
  (∀ u w, J w → fst (f u w) ≠ Pending → J (snd (f u w))) →
  ∀ fuel u w, J w → fst (retry base self fuel f u w) ≠ Pending →
              J (snd (retry base self fuel f u w)).
Proof.
  intros Hlog Hcount Hf fuel.
  induction fuel as [|fuel IH]; intros u w Hw; rewrite retry_eq;
    specialize (Hf u _ (Hlog u _ Hw));
    (destruct (f u (log (EvAttempt u) w)) as [[a|e|] w1]; cbn [fst snd] in *;
     [intros _; by apply Hf| |by intros []]);
    (destruct e; try (intros _; by apply Hf));
    (destruct (current_attempt w1 !! url_str u); [|intros _; by apply Hf]);
    (destruct (negb _ && _)%bool; [intros _; by apply Hf|]); cbn zeta.
  - done.
  - apply IH. apply Hcount. by apply Hf.
Qed.

(** What the first attempt establishes, and the later ones keep, holds
    at the end of the loop. *)
Lemma retry_after_first {A} (J : World → Prop) base self (f : URL → M A) :
  (∀ u w, J w → J (log (EvAttempt u) w)) →
  (∀ g w, J w → J (set_current_attempt g w)) →
  (∀ u w, J w → J (snd (f u w))) →
  ∀ fuel u w, J (snd (f u (log (EvAttempt u) w))) → J (snd (retry base self fuel f u w)).
Proof.
  intros Hlog Hcount Hf fuel u w. rewrite retry_eq.
  destruct (f u (log (EvAttempt u) w)) as [[a|e|] w1]; cbn [fst snd]; try done.
  destruct e; try done.
  destruct (current_attempt w1 !! url_str u); [|done].
  destruct (negb _ && _)%bool; [done|]. cbn zeta. intros Hw1.
  destruct fuel as [|fuel]; [by apply Hcount|].
  apply retry_invariant; auto.
Qed.

(** ** The except clause of [download_file] *)

Lemma on_failure_outcome url name e w :
  let r := on_failure url name e w in
  (name ∉ locks (snd r))
  ∧ semaphore (snd r) = semaphore w ∧ files (snd r) = files w
  ∧ ∀ e', fst r = Raise e' → e' = FailureException 1.
Proof.
  destruct w as [lk lg tm fs ca sem ck tr]. run_coroutine.
  all: repeat split; try (intros ? [=]); try done.
  all: rewrite elem_of_difference, elem_of_singleton; tauto.
Qed.

Lemma rename_file_raises name db_path w e :
  fst (rename_file name db_path w) = Raise e → e = OtherError.
Proof.
  destruct w as [lk lg tm fs ca sem ck tr]. run_coroutine. all: by intros [=].
Qed.

Lemma download_file_wrapped_raises self session fuel filename url w e w' :
  download_file_wrapped self session fuel filename url w = (Raise e, w') →
  e = OtherError ∨ (e = FailureException 1 ∧ filename ∉ locks w').
Proof.
  unfold download_file_wrapped, init_attempt.
  unfold bind at 1. unfold modify at 1.
  set (w0 := set_current_attempt _ w).
  unfold bind at 1. unfold db_path_of.
  destruct (normalized_path url) as [db_path|]; [|intros [= <- <-]; by left].
  unfold ret at 1. unfold bind at 1, sql_check_existing, get.
  destruct (completed_in (ledger w0) db_path); [done|].
  unfold try_except, bind at 1, with_semaphore.
  destruct (semaphore w0) as [|permits] eqn:Hsem; [done|].
  unfold finally.
  destruct (locked_section self session fuel url db_path _ filename _)
    as [[[name|]|e0|] w2]; [| done | | done].
  - unfold bind at 1.
    pose proof (rename_file_raises name db_path (set_semaphore S w2)) as Hrename.
    destruct (rename_file name db_path (set_semaphore S w2)) as [[[]|e1|] w4];
      cbn [fst snd] in *; [done| |done].
    rewrite (Hrename e1 eq_refl). cbn. intros [= <- <-]. by left.
  - destruct (caught_by_download_file e0) eqn:Hcaught.
    + destruct (on_failure_outcome url filename e0 (set_semaphore S w2))
        as (Hlock & _ & _ & Hraise). cbn zeta in *.
      destruct (on_failure url filename e0 (set_semaphore S w2)) as [o w3].
      cbn [fst snd] in *. intros [= -> <-]. right. split; [by apply Hraise|done].
    + destruct e0; try done. intros [= <- <-]. by left.
Qed.

(** Whatever the session raises, [download_file] lets no transport
    error out: what reaches the caller is a [FailureException] of code
    1, raised by the except clause after it released the lock on the
    filename, or an exception that the clause does not name (the
    [IndexError] of line 89, the [FileNotFoundError] of the rename, the
    [KeyError] of the decorator). *)
Theorem download_file_raises base self session fuel url filename w e w' :
  download_file base self session fuel url filename w = (Raise e, w') →
  e = OtherError ∨ (e = FailureException 1 ∧ filename ∉ locks w').
Proof.
  unfold download_file.
  apply (retry_raises (fun e w' => e = OtherError ∨ (e = FailureException 1 ∧ filename ∉ locks w'))).
  - intros u W e0 W'. apply download_file_wrapped_raises.
  - intros W. by left.
Qed.

Lemma download_file_raises_witness :
  FailureException 1 = OtherError
  ∨ (FailureException 1 = FailureException 1
     ∧ "a.jpg" ∉ locks (snd (download_file some_base (a_downloader 1 false) dead_session 5
                               (mkURL "https" "example.com" "/a.jpg") "a.jpg"
                               (empty_world 1)))).
Proof.
  apply (download_file_raises some_base (a_downloader 1 false) dead_session 5
           (mkURL "https" "example.com" "/a.jpg") "a.jpg" (empty_world 1)).
  vm_compute. reflexivity.
Defined.

(** ** The semaphore *)

Lemma locked_section_semaphore self session fuel url db_path throttle filename w :
  semaphore (snd (locked_section self session fuel url db_path throttle filename w))
  = semaphore w.
Proof.
  destruct w as [lk lg tm fs ca sem ck tr]. run_coroutine. all: reflexivity.
Qed.

Lemma rename_file_semaphore name db_path w :
  semaphore (snd (rename_file name db_path w)) = semaphore w.
Proof.
  destruct w as [lk lg tm fs ca sem ck tr]. run_coroutine. all: reflexivity.
Qed.

Lemma download_file_wrapped_semaphore self session fuel filename url w o w' :
  download_file_wrapped self session fuel filename url w = (o, w') →
  o ≠ Pending → semaphore w' = semaphore w.
Proof.
  unfold download_file_wrapped, init_attempt.
  unfold bind at 1. unfold modify at 1.
  set (w0 := set_current_attempt _ w).
  assert (H0 : semaphore w0 = semaphore w) by done. clearbody w0.
  unfold bind at 1. unfold db_path_of.
  destruct (normalized_path url) as [db_path|]; [|by intros [= <- <-]].
  unfold ret at 1. unfold bind at 1, sql_check_existing, get.
  destruct (completed_in (ledger w0) db_path); [by intros [= <- <-]|].
  unfold try_except, bind at 1, with_semaphore.
  destruct (semaphore w0) as [|permits] eqn:Hsem; [by intros [= <- <-]|].
  unfold finally.
  pose proof (locked_section_semaphore self session fuel url db_path
                (client_throttle (client self)) filename
                (set_semaphore (λ _, permits) w0)) as Hlocked.
  destruct (locked_section self session fuel url db_path _ filename _)
    as [[[name|]|e0|] w2]; cbn [fst snd semaphore set_semaphore] in *;
    [| intros [= <- <-] _; cbn; congruence | | by intros [= <- <-]].
  - unfold bind at 1.
    pose proof (rename_file_semaphore name db_path (set_semaphore S w2)) as Hrename.
    destruct (rename_file name db_path (set_semaphore S w2)) as [[[]|e1|] w4];
      cbn [fst snd semaphore set_semaphore] in *.
    + intros [= <- <-] _. cbn. congruence.
    + destruct (caught_by_download_file e1); [|intros [= <- <-] _; congruence].
      destruct (on_failure_outcome url filename e1 w4) as (_ & Hsame & _).
      cbn zeta in Hsame. intros Hrun _. rewrite Hrun in Hsame. cbn in Hsame. congruence.
    + by intros [= <- <-].
  - destruct (caught_by_download_file e0); [|intros [= <- <-] _; cbn; congruence].
    destruct (on_failure_outcome url filename e0 (set_semaphore S w2)) as (_ & Hsame & _).
    cbn zeta in Hsame. intros Hrun _. rewrite Hrun in Hsame. cbn in Hsame. congruence.
Qed.

(** However a run of [download_file] ends (a return, an exception, a
    failure after the last retry), the permits of the semaphore are
    what they were before: each attempt gives back the one it took.
    Only a run that is still waiting holds one. *)
Theorem download_file_gives_the_permit_back base self session fuel url filename w :
  let r := download_file base self session fuel url filename w in
  fst r ≠ Pending → semaphore (snd r) = semaphore w.
Proof.
  unfold download_file.
  apply (retry_unless_pending (fun w' => semaphore w' = semaphore w)); try done.
  intros u W HW Hend. rewrite <- HW.
  destruct (download_file_wrapped self session fuel filename u W) as [o W'] eqn:Hrun.
  by apply (download_file_wrapped_semaphore _ _ _ _ _ _ _ _ Hrun).
Qed.

Lemma download_file_gives_the_permit_back_witness :
  semaphore (snd (download_file some_base (a_downloader 2 false) dead_session 5
                    (mkURL "https" "example.com" "/a.jpg") "a.jpg" (empty_world 1)))
  = 1%nat.
Proof.
  apply (download_file_gives_the_permit_back some_base (a_downloader 2 false) dead_session 5
           (mkURL "https" "example.com" "/a.jpg") "a.jpg" (empty_world 1)).
  vm_compute. discriminate.
Defined.

(** ** Finished files *)

Section FinishedFile.
Context (kept : string) (size : Z).
Hypothesis not_a_part_file : ∀ x, kept ≠ x +:+ ".part".

Lemma part_file_is_not_kept x : part_file x ≠ kept.
Proof. rewrite part_file_eq. intros H. by apply (not_a_part_file x). Qed.

Lemma locked_section_keeps_finished_files self session fuel url db_path throttle filename w :
  files w !! kept = Some size →
  files (snd (locked_section self session fuel url db_path throttle filename w)) !! kept
  = Some size.
Proof.
  destruct w as [lk lg tm fs ca sem ck tr]. cbn [files]. intros Hkept.
  run_coroutine.
  all: rewrite ?lookup_insert_ne by apply part_file_is_not_kept; done.
Qed.

Lemma rename_file_keeps_finished_files name db_path w :
  files w !! kept = Some size →
  files (snd (rename_file name db_path w)) !! kept = Some size.
Proof.
  destruct w as [lk lg tm fs ca sem ck tr]. cbn [files]. intros Hkept.
  run_coroutine; try done.
  - by rewrite lookup_delete_ne by apply part_file_is_not_kept.
  - rewrite lookup_insert_ne, lookup_delete_ne; [done|apply part_file_is_not_kept|].
    intros ->. match goal with H : bool_decide _ = false |- _ =>
      apply bool_decide_eq_false in H; apply H end. by rewrite Hkept.
Qed.

Lemma download_file_wrapped_keeps_finished_files self session fuel filename url w :
  files w !! kept = Some size →
  files (snd (download_file_wrapped self session fuel filename url w)) !! kept = Some size.
Proof.
  intros Hw.
  unfold download_file_wrapped, init_attempt.
  unfold bind at 1. unfold modify at 1.
  set (w0 := set_current_attempt _ w).
  assert (H0 : files w0 !! kept = Some size) by done. clearbody w0.
  unfold bind at 1. unfold db_path_of.
  destruct (normalized_path url) as [db_path|]; [|done].
  unfold ret at 1. unfold bind at 1, sql_check_existing, get.
  destruct (completed_in (ledger w0) db_path); [done|].
  unfold try_except, bind at 1, with_semaphore.
  destruct (semaphore w0) as [|permits] eqn:Hsem; [done|].
  unfold finally.
  pose proof (locked_section_keeps_finished_files self session fuel url db_path
                (client_throttle (client self)) filename
                (set_semaphore (λ _, permits) w0) H0) as H2.
  destruct (locked_section self session fuel url db_path _ filename _)
    as [[[name|]|e0|] w2]; cbn [fst snd] in *; [| done | | done].
  - unfold bind at 1.
    pose proof (rename_file_keeps_finished_files name db_path (set_semaphore S w2) H2) as H4.
    destruct (rename_file name db_path (set_semaphore S w2)) as [[[]|e1|] w4];
      cbn [fst snd] in *; [done| |done].
    destruct (caught_by_download_file e1); [|done].
    destruct (on_failure_outcome url filename e1 w4) as (_ & _ & -> & _). done.
  - destruct (caught_by_download_file e0); [|done].
    destruct (on_failure_outcome url filename e0 (set_semaphore S w2)) as (_ & _ & -> & _).
    done.
Qed.

End FinishedFile.

(** [download_file] never touches a file that is in the folder when it
    starts, unless its name ends in [.part]: whatever the link, the
    name it was given, the session and the number of retries, such a
    file is there afterwards at the size it had.  The bytes of a run
    go to a part file, and the rename at the end gives way to a file
    that stands under the final name. *)
Theorem download_file_never_overwrites base self session fuel url filename w kept size :
  (∀ x, kept ≠ x +:+ ".part") →
  files w !! kept = Some size →
  files (snd (download_file base self session fuel url filename w)) !! kept = Some size.
Proof.
  intros Hkept Hw. unfold download_file.
  apply (retry_invariant (fun w' => files w' !! kept = Some size)); try done.
  intros u W HW. by apply download_file_wrapped_keeps_finished_files.
Qed.

Lemma download_file_never_overwrites_witness :
  files (snd (download_file some_base (a_downloader 3 false) (good_session 10) 5
                (mkURL "https" "example.com" "/a.jpg") "a.jpg"
                (with_files [("a.jpg", 7)] (empty_world 1)))) !! "a.jpg"
  = Some 7.
Proof.
  apply download_file_never_overwrites; [|vm_compute; reflexivity].
  intros [|c x] H; [by cbv in H|].
  apply (f_equal String.length) in H. rewrite string_app_length in H. cbn in H. lia.
Defined.

(** ** A part file left by an earlier run *)

Lemma locked_section_resume self session fuel url db_path throttle filename w n c wr rs :
  mark_downloaded self = false →
  filename ∉ locks w →
  files w !! filename = None → files w !! part_file filename = Some n →
  ledger w !! db_path = Some (filename, c) → filename ≠ "" →
  session_download_file session (clock w) url = mkTransfer wr rs →
  locked_section self session fuel url db_path throttle filename w
  = (match rs with Some e => Raise e | None => Return (Some filename) end,
     after_transfer self url db_path throttle filename (Some n) wr w).
Proof.
  intros Hmark Hfree Hfile Hpart Hrecord Hname Hsession.
  destruct w as [lk lg tm fs ca sem ck tr]. cbn [locks files clock ledger] in *.
  unfold after_transfer. unfold_coroutine.
  rewrite lock_wait_eq. cbn [locks]. rewrite bool_decide_eq_false_2 by done.
  unfold_coroutine. rewrite Hfile, Hpart.
  rewrite (bool_decide_eq_false_2 (is_Some None)) by (by intros [? [=]]).
  rewrite (bool_decide_eq_true_2 (is_Some (Some n))) by done.
  cbn [orb]. unfold_coroutine. rewrite Hrecord. cbn [fmap option_fmap option_map fst].
  rewrite (proj2 (String.eqb_neq filename "") Hname).
  unfold_coroutine. rewrite Hmark. unfold_coroutine. rewrite Hpart, Hsession.
  cbn. by destruct wr, rs.
Qed.

Lemma trace_from_faithful name t w w' :
  trace_from t w → faithful_run name w w' → trace_from t w'.
Proof.
  intros [rest Hw] (evs & Ht & _). exists (rest ++ evs). by rewrite Ht, Hw, (assoc_L (++)).
Qed.

Lemma download_file_wrapped_resume self session fuel filename url w path n :
  normalized_path url = Some path → ledger w !! path = Some (filename, false) →
  filename ≠ "" →
  semaphore w ≠ 0%nat → mark_downloaded self = false →
  filename ∉ locks w →
  files w !! filename = None → files w !! part_file filename = Some n →
  trace_from
    (trace w ++ [EvAddLock filename; EvInsertFile path filename false;
                 EvInsertTemp (part_file filename);
                 EvDownload url (host_throttle self url (client_throttle (client self)))
                            (Some ("bytes=" +:+ pretty n +:+ "-"))
                            filename filename (part_file filename) n])
    (snd (download_file_wrapped self session fuel filename url w)).
Proof.
  intros Hpath Hrecord Hname Hsem Hmark Hfree Hfile Hpart.
  destruct (semaphore w) as [|permits] eqn:Hpermits; [done|].
  unfold download_file_wrapped, init_attempt, db_path_of, sql_check_existing.
  rewrite Hpath. unfold bind at 1, modify at 1. unfold bind at 1, ret at 1.
  unfold bind at 1, get at 1. cbn [ledger set_current_attempt].
  unfold completed_in. rewrite Hrecord.
  unfold try_except, bind at 1, with_semaphore. cbn [semaphore set_current_attempt].
  rewrite Hpermits. unfold finally.
  destruct (session_download_file session (clock w) url) as [wr rs] eqn:Hsession.
  rewrite (locked_section_resume _ _ _ _ _ _ _ _ n false wr rs) by done.
  set (w' := after_transfer _ _ _ _ _ _ _ _).
  assert (Hlater : ∀ w'', faithful_run filename (set_semaphore S w') w'' →
            trace_from
              (trace w ++ [EvAddLock filename; EvInsertFile path filename false;
                 EvInsertTemp (part_file filename);
                 EvDownload url (host_throttle self url (client_throttle (client self)))
                            (Some ("bytes=" +:+ pretty n +:+ "-"))
                            filename filename (part_file filename) n]) w'').
  { intros w'' Hrun. eapply trace_from_faithful; [|exact Hrun].
    exists []. subst w'. unfold after_transfer.
    destruct w as [lk lg tm fs ca sem ck tr]. destruct wr; cbn; by rewrite <- !(assoc_L (++)). }
  assert (Hsome : is_Some (ledger (set_semaphore S w') !! path)).
  { subst w'. unfold after_transfer. destruct w as [lk lg tm fs ca sem ck tr].
    destruct wr; cbn; apply insert_record_is_Some. }
  clearbody w'.
  destruct rs as [e|].
  - destruct (caught_by_download_file e); cbn [snd].
    + apply Hlater, on_failure_faithful.
    + apply Hlater, faithful_run_refl.
  - unfold bind at 1.
    pose proof (rename_file_faithful filename filename path (set_semaphore S w') Hsome) as H4.
    destruct (rename_file filename path (set_semaphore S w')) as [[[]|e|] w4];
      cbn [fst snd] in *.
    + apply Hlater. eapply faithful_run_trans; [exact H4|]. apply remove_lock_faithful.
    + destruct (caught_by_download_file e).
      * apply Hlater. eapply faithful_run_trans; [exact H4|]. apply on_failure_faithful.
      * by apply Hlater.
    + by apply Hlater.
Qed.

(** A link whose record in the ledger is pending under the name it
    resolves to, with the part file of that name in the folder and no
    complete file: the first attempt of [download_file] keeps the
    name and asks the session to resume, with the range
    [bytes=<size of the part file>-] and that size as the resume
    point.  Whatever the transfer and the retries do afterwards comes
    after these events. *)
Theorem download_file_resumes_a_part_file base self session fuel url filename w path n :
  normalized_path url = Some path → ledger w !! path = Some (filename, false) →
  filename ≠ "" →
  semaphore w ≠ 0%nat → mark_downloaded self = false →
  filename ∉ locks w →
  files w !! filename = None → files w !! part_file filename = Some n →
  ∃ rest,
    trace (snd (download_file base self session fuel url filename w))
    = (trace w ++ [EvAttempt url]
         ++ [EvAddLock filename; EvInsertFile path filename false;
             EvInsertTemp (part_file filename);
             EvDownload url (host_throttle self url (client_throttle (client self)))
                        (Some ("bytes=" +:+ pretty n +:+ "-"))
                        filename filename (part_file filename) n]) ++ rest.
Proof.
  intros Hpath Hrecord Hname Hsem Hmark Hfree Hfile Hpart.
  unfold download_file. rewrite (assoc_L (++)).
  match goal with |- ∃ rest, _ = ?t ++ rest => apply (retry_after_first (trace_from t)) end.
  - intros u W [rest HW]. exists (rest ++ [EvAttempt u]).
    unfold log; cbn [trace]. by rewrite HW, <- (assoc_L (++)).
  - by intros g W HW.
  - intros u W HW. eapply trace_from_faithful; [exact HW|].
    apply download_file_wrapped_faithful.
  - by apply (download_file_wrapped_resume self session fuel filename url
                (log (EvAttempt url) w) path n).
Qed.

Lemma download_file_resumes_a_part_file_witness :
  ∃ rest,
    trace (snd (download_file some_base (a_downloader 3 false) (good_session 10) 5
                  (mkURL "https" "example.com" "/a.jpg") "a.jpg"
                  (set_ledger (fun _ => {["/a.jpg" := ("a.jpg", false)]})
                     (with_files [("a.jpg.part", 4)] (empty_world 1)))))
    = ([] ++ [EvAttempt (mkURL "https" "example.com" "/a.jpg")]
         ++ [EvAddLock "a.jpg"; EvInsertFile "/a.jpg" "a.jpg" false;
             EvInsertTemp (part_file "a.jpg");
             EvDownload (mkURL "https" "example.com" "/a.jpg")
                        (host_throttle (a_downloader 3 false)
                           (mkURL "https" "example.com" "/a.jpg")
                           (client_throttle (client (a_downloader 3 false))))
                        (Some ("bytes=" +:+ pretty 4 +:+ "-"))
                        "a.jpg" "a.jpg" (part_file "a.jpg") 4]) ++ rest.
Proof.
  apply (download_file_resumes_a_part_file some_base (a_downloader 3 false) (good_session 10) 5
           (mkURL "https" "example.com" "/a.jpg") "a.jpg"
           (set_ledger (fun _ => {["/a.jpg" := ("a.jpg", false)]})
              (with_files [("a.jpg.part", 4)] (empty_world 1))) "/a.jpg" 4);
    try done.
Defined.

(** ** Marking without fetching *)

Section MarkOnly.
Context (self : Downloader) (fs : gmap string Z) (k : nat).
Hypothesis mark_only : mark_downloaded self = true.

Ltac close_untouched :=
  cbv [untouched files trace] in *; cbn [fst snd] in *;
  repeat match goal with H : _ ∧ _ |- _ => destruct H end;
  repeat split; try (intros ? [=]); try done;
  rewrite ?transfers_made_snoc; cbn [is_transfer]; lia.

Lemma locked_section_mark_only session fuel url db_path throttle filename w :
  untouched fs k w →
  let r := locked_section self session fuel url db_path throttle filename w in
  untouched fs k (snd r) ∧ ∀ name, fst r ≠ Return (Some name).
Proof.
  destruct w as [lk lg tm fs0 ca sem ck tr]. intros [Hfile Hk]. cbn [files trace] in Hfile, Hk.
  unfold_coroutine.
  repeat (first [rewrite mark_only | split_branch]; unfold_coroutine).
  all: close_untouched.
Qed.

Lemma on_failure_untouched url filename e w :
  untouched fs k w → untouched fs k (snd (on_failure url filename e w)).
Proof.
  destruct w as [lk lg tm fs0 ca sem ck tr]. intros [Hfile Hk]. cbn [files trace] in Hfile, Hk.
  run_coroutine. all: close_untouched.
Qed.

Lemma download_file_wrapped_mark_only session fuel filename url w :
  untouched fs k w →
  untouched fs k (snd (download_file_wrapped self session fuel filename url w)).
Proof.
  intros Hw.
  unfold download_file_wrapped, init_attempt.
  unfold bind at 1. unfold modify at 1.
  set (w0 := set_current_attempt _ w).
  assert (H0 : untouched fs k w0) by done.
  unfold bind at 1.
  pose proof (db_path_of_world url w0) as Hdb.
  destruct (db_path_of url w0) as [[db_path|e|] w0']; cbn in Hdb; subst w0'; [|done..].
  unfold bind at 1, sql_check_existing, get.
  destruct (completed_in (ledger w0) db_path); [done|].
  unfold try_except, bind at 1, with_semaphore.
  destruct (semaphore w0) as [|permits] eqn:Hsem; [done|].
  unfold finally.
  set (w1 := set_semaphore _ w0).
  assert (H1 : untouched fs k w1) by done.
  destruct (locked_section_mark_only session fuel url db_path
              (client_throttle (client self)) filename w1 H1) as [H2 Hnone].
  destruct (locked_section self session fuel url db_path _ filename w1)
    as [[[name|]|e|] w2]; cbn [fst snd] in *.
  - by destruct (Hnone name).
  - done.
  - destruct (caught_by_download_file e); cbn; [|done].
    by apply on_failure_untouched.
  - done.
Qed.
End MarkOnly.

(** In mark-downloaded mode a run of [download_file], retries
    included, calls [session.download_file] not once and leaves every
    file of the folder as it was. *)
Theorem mark_downloaded_fetches_nothing base self session fuel url filename w :
  mark_downloaded self = true →
  let w' := snd (download_file base self session fuel url filename w) in
  files w' = files w ∧ transfers_made (trace w') = transfers_made (trace w).
Proof.
  intros Hmark. unfold download_file.
  apply (retry_invariant (untouched (files w) (transfers_made (trace w)))); [| | |done].
  - intros u W [Hf Ht]. split; [done|].
    unfold log; cbn [trace]. rewrite transfers_made_snoc. cbn [is_transfer]. lia.
  - by intros g W [Hf Ht].
  - intros u W HW. by apply download_file_wrapped_mark_only.
Qed.

Lemma mark_downloaded_fetches_nothing_witness :
  let w' := snd (download_file some_base (a_downloader 3 true) (good_session 10) 5
                   (mkURL "https" "example.com" "/a.jpg") "a.jpg" (empty_world 1)) in
  files w' = files (empty_world 1)
  ∧ transfers_made (trace w') = transfers_made (trace (empty_world 1)).
Proof.
  by apply (mark_downloaded_fetches_nothing some_base (a_downloader 3 true) (good_session 10) 5
              (mkURL "https" "example.com" "/a.jpg") "a.jpg" (empty_world 1)).
Defined.

(** ** The ledger key of an anonfiles link *)

Lemma normalized_path_too_short url :
  Str.contains "anonfiles" (host url) = true →
  (length (Str.split "/"%char (path url)) ≤ 2)%nat →
  normalized_path url = None.
Proof.
  intros Hhost Hlen. unfold normalized_path, Str.pop. rewrite Hhost.
  pose proof (split_nonempty "/"%char (path url)) as Hne.
  destruct (Str.split "/"%char (path url)) as [|p [|q [|r l]]]; cbn in *; try done; lia.
Qed.

(** On an anonfiles host, a link whose path has fewer than two
    segments after the leading slash ends [download_file] with the
    [IndexError] of line 89: the counter of the URL is set up, and
    neither the ledger nor the lock table nor the session is reached;
    the decorator does not retry. *)
Theorem download_file_of_a_short_anonfiles_path base self session fuel url filename w :
  Str.contains "anonfiles" (host url) = true →
  (length (Str.split "/"%char (path url)) ≤ 2)%nat →
  download_file base self session fuel url filename w
  = (Raise OtherError,
     set_current_attempt (init_counter (url_str url)) (log (EvAttempt url) w)).
Proof.
  intros Hhost Hlen. unfold download_file.
  apply retry_passes; [|done].
  unfold download_file_wrapped, init_attempt, db_path_of.
  by rewrite (normalized_path_too_short url Hhost Hlen).
Qed.

Lemma download_file_of_a_short_anonfiles_path_witness :
  fst (download_file some_base (a_downloader 3 false) (good_session 10) 5
         (mkURL "https" "anonfiles.com" "/x1y2z3") "a.jpg" (empty_world 1))
  = Raise OtherError.
Proof.
  rewrite (download_file_of_a_short_anonfiles_path some_base (a_downloader 3 false)
             (good_session 10) 5 (mkURL "https" "anonfiles.com" "/x1y2z3") "a.jpg"
             (empty_world 1)); [done|by vm_compute|vm_compute; lia].
Defined.

(** On an anonfiles host the ledger key of a link [/id/name] is [/id]:
    the name of the file is no part of it, so two links that differ
    in the name only are one path to the ledger. *)
Theorem normalized_path_of_anonfiles url id name :
  Str.contains "anonfiles" (host url) = true →
  path url = "/" +:+ id +:+ "/" +:+ name →
  Str.contains "/" id = false → Str.contains "/" name = false →
  normalized_path url = Some ("/" +:+ id).
Proof.
  intros Hhost Hpath Hid Hname. unfold normalized_path. rewrite Hhost, Hpath.
  change ("/" +:+ id +:+ "/" +:+ name) with ("" +:+ String "/"%char (id +:+ String "/"%char name)).
  rewrite !split_app_sep, (split_without_sep _ _ Hid), (split_without_sep _ _ Hname).
  reflexivity.
Qed.

Lemma normalized_path_of_anonfiles_witness :
  normalized_path (mkURL "https" "anonfiles.com" "/x1y2z3/a.jpg") = Some "/x1y2z3"
  ∧ normalized_path (mkURL "https" "anonfiles.com" "/x1y2z3/b.jpg") = Some "/x1y2z3".
Proof.
  split.
  - by apply (normalized_path_of_anonfiles (mkURL "https" "anonfiles.com" "/x1y2z3/a.jpg")
                "x1y2z3" "a.jpg").
  - by apply (normalized_path_of_anonfiles (mkURL "https" "anonfiles.com" "/x1y2z3/b.jpg")
                "x1y2z3" "b.jpg").
Defined.

(** ** The rename at the end ([rename_file]) *)

(** With the part file of [filename] in the folder, [rename_file]
    returns; afterwards the part file is gone and the file stands
    under [filename]: at the size it had if it was there already (the
    part file is then dropped, not moved over it), at the size of the
    part file otherwise.  No other file changes, and the path is
    completed in the ledger under [filename]. *)
Theorem rename_file_finishes filename db_path w size :
  files w !! part_file filename = Some size →
  let r := rename_file filename db_path w in
  fst r = Return tt
  ∧ files (snd r) !! part_file filename = None
  ∧ files (snd r) !! filename = Some (default size (files w !! filename))
  ∧ (∀ other, other ≠ filename → other ≠ part_file filename →
              files (snd r) !! other = files w !! other)
  ∧ ledger (snd r) = <[db_path := (filename, true)]> (ledger w).
Proof.
  intros Hpart. pose proof (part_file_ne filename) as Hne.
  destruct w as [lk lg tm fs ca sem ck tr]. cbn [files ledger] in *.
  unfold_coroutine. rewrite Hpart. unfold_coroutine.
  destruct (fs !! filename) as [old|] eqn:Hfile.
  - rewrite bool_decide_eq_true_2 by done. unfold_coroutine.
    split; [done|]. split; [apply lookup_delete_eq|].
    split; [by rewrite lookup_delete_ne|]. split; [|done].
    intros other _ Hother. by rewrite lookup_delete_ne.
  - rewrite bool_decide_eq_false_2 by (by intros [? [=]]). unfold_coroutine.
    split; [done|]. split; [by rewrite lookup_insert_ne, lookup_delete_eq|].
    split; [apply lookup_insert_eq|]. split; [|done].
    intros other Hother Hother'. by rewrite lookup_insert_ne, lookup_delete_ne.
Qed.

Lemma rename_file_finishes_witness :
  let r := rename_file "a.jpg" "/a.jpg" (with_files [("a.jpg", 7); ("a.jpg.part", 10)]
                                           (empty_world 1)) in
  fst r = Return tt ∧ files (snd r) !! "a.jpg" = Some 7.
Proof.
  destruct (rename_file_finishes "a.jpg" "/a.jpg"
              (with_files [("a.jpg", 7); ("a.jpg.part", 10)] (empty_world 1)) 10)
    as (Hret & _ & Hfile & _); [by vm_compute|].
  split; [exact Hret|]. rewrite Hfile. by vm_compute.
Defined.

(** A session that returns without leaving a part file: the rename of
    line 157 raises [FileNotFoundError], which the except clause does
    not name.  The exception leaves [download_file] after one attempt
    with the lock on the filename still in the table and the path
    pending in the ledger. *)
Theorem download_file_without_part_file base self session fuel url filename w path :
  normalized_path url = Some path →
  completed_in (ledger w) path = false →
  semaphore w ≠ 0%nat → mark_downloaded self = false →
  filename ∉ locks w →
  files w !! filename = None → files w !! part_file filename = None →
  session_download_file session (clock w) url = mkTransfer None None →
  let r := download_file base self session fuel url filename w in
  fst r = Raise OtherError
  ∧ attempts_made (trace (snd r)) = (attempts_made (trace w) + 1)%nat
  ∧ filename ∈ locks (snd r)
  ∧ semaphore (snd r) = semaphore w
  ∧ completed_in (ledger (snd r)) path = false.
Proof.
  intros Hpath Hnew Hsem Hmark Hfree Hfile Hpart Hsession r.
  pose proof (download_file_wrapped_fresh self session fuel filename url
                (log (EvAttempt url) w) path None None
                Hpath Hnew Hsem Hmark Hfree Hfile Hpart Hsession) as Hrun.
  cbv beta iota zeta in Hrun.
  destruct w as [lk lg tm fs ca sem ck tr]. cbn [locks ledger files semaphore clock trace] in *.
  revert Hrun. unfold after_transfer. unfold_coroutine. rewrite Hpart. unfold_coroutine.
  intros Hrun. subst r. unfold download_file.
  rewrite (retry_passes base self fuel _ url (mkWorld lk lg tm fs ca sem ck tr) _ _ Hrun)
    by done.
  cbn [fst snd locks ledger semaphore trace].
  split; [done|]. split; [rewrite !attempts_made_app; cbn; lia|].
  split; [apply elem_of_union_l; by apply elem_of_singleton|]. split; [done|].
  unfold insert_record, completed_in in *.
  destruct (lg !! path) as [[? []]|] eqn:E; rewrite ?E, ?lookup_insert_eq; done.
Qed.

Lemma download_file_without_part_file_witness :
  let r := download_file some_base (a_downloader 3 false) idle_session 5
                         (mkURL "https" "example.com" "/a.jpg") "a.jpg" (empty_world 1) in
  fst r = Raise OtherError ∧ "a.jpg" ∈ locks (snd r).
Proof.
  destruct (download_file_without_part_file some_base (a_downloader 3 false) idle_session 5
              (mkURL "https" "example.com" "/a.jpg") "a.jpg" (empty_world 1) "/a.jpg")
    as (Hret & _ & Hlock & _); done.
Defined.

(** ** What resolving a name asks of the session ([get_filename]) *)

Lemma get_filename_asks base self session url w :
  let r := get_filename base self session url w in
  let throttle := slowest_throttle self url (client_throttle (client self)) in
  (∃ evs, trace (snd r) = trace w ++ evs
          ∧ clock (snd r) = (clock w + length evs)%nat
          ∧ (evs = [] ∨ evs = [EvGetFilename url throttle]
             ∨ evs = [EvGetFilename url throttle; EvGetContentType url throttle]))
  ∧ locks (snd r) = locks w ∧ ledger (snd r) = ledger w ∧ files (snd r) = files w
  ∧ current_attempt (snd r) = current_attempt w ∧ semaphore (snd r) = semaphore w
  ∧ ∀ c, fst r = Raise (FailureException c) → c = 0.
Proof.
  destruct w as [lk lg tm fs ca sem ck tr].
  cbv beta iota zeta delta
    [get_filename except_failure ask_filename ask_content_type
     bind ret raise try_except tick log locks ledger files current_attempt semaphore
     trace clock];
    cbn [fst snd].
  repeat (split_branch;
          cbv beta iota zeta delta
            [bind ret raise try_except tick log locks ledger files current_attempt semaphore
             trace clock]; cbn [fst snd]).
  all: split; [|repeat split; try done; by intros ? [=]].
  all: first [ exists []; rewrite app_nil_r; split; [done|]; split; [cbn; lia|]; by left
             | eexists [_]; split; [done|]; split; [cbn; lia|]; right; by left
             | eexists [_; _]; rewrite <- (assoc_L (++)); split; [done|]; split; [cbn; lia|];
               right; by right ].
Qed.

(** [get_filename] only asks: it changes no lock, no record of the
    ledger, no file and no attempt counter, and takes no permit.  It
    calls the session at most twice, for the filename first and for
    the content type after that, both at the throttle of lines
    212-215. *)
Theorem get_filename_only_asks base self session url w :
  let w' := snd (get_filename base self session url w) in
  let throttle := slowest_throttle self url (client_throttle (client self)) in
  (∃ evs, trace w' = trace w ++ evs
          ∧ clock w' = (clock w + length evs)%nat
          ∧ (evs = [] ∨ evs = [EvGetFilename url throttle]
             ∨ evs = [EvGetFilename url throttle; EvGetContentType url throttle]))
  ∧ locks w' = locks w ∧ ledger w' = ledger w ∧ files w' = files w
  ∧ current_attempt w' = current_attempt w ∧ semaphore w' = semaphore w.
Proof.
  destruct (get_filename_asks base self session url w) as (H1 & H2 & H3 & H4 & H5 & H6 & _).
  done.
Qed.

(** A name that is not longer than the maximum, with a known
    extension in lower case: [get_filename] returns the name read off
    the URL as it is, and the session is not asked. *)
Theorem get_filename_of_a_plain_name base self session url w :
  let candidate := candidate_name base url in
  let ext := Str.last_piece "."%char candidate in
  (String.length candidate ≤ MAX_FILENAME_LENGTH base)%nat →
  known_format base ("." +:+ ext) = true → Str.lower ext = ext →
  get_filename base self session url w = (Return candidate, w).
Proof.
  intros candidate ext Hshort Hknown Hlower.
  assert (Hsame : shorten base candidate = candidate).
  { unfold shorten. rewrite decide_False; [done|lia]. }
  rewrite get_filename_known_format; fold candidate; rewrite Hsame; fold ext;
    [|by rewrite Hlower].
  unfold lower_ext. fold ext. by rewrite Hlower, replace_same.
Qed.

Lemma get_filename_of_a_plain_name_witness :
  get_filename some_base (a_downloader 3 false) dead_session
               (mkURL "https" "example.com" "/album/a.jpg") (empty_world 1)
  = (Return "a.jpg", empty_world 1).
Proof.
  apply (get_filename_of_a_plain_name some_base (a_downloader 3 false) dead_session
           (mkURL "https" "example.com" "/album/a.jpg") (empty_world 1)).
  - vm_compute. lia.
  - by vm_compute.
  - by vm_compute.
Defined.

(** ** The pipeline of one link ([download_and_store]) *)

Lemma download_and_store_never_raises base self session fuel url_tuple w e :
  fst (download_and_store base self session fuel url_tuple w) ≠ Raise e.
Proof.
  unfold download_and_store, try_except.
  by destruct (bind _ _ w) as [[[]|e0|] w1].
Qed.

(** No exception leaves [download_and_store]: whatever the session
    answers and whatever [get_filename] or [download_file] raise, a
    run that comes to an end returns, and the permits of the
    semaphore are what they were before. *)
Theorem download_and_store_ends_quietly base self session fuel url_tuple w :
  let r := download_and_store base self session fuel url_tuple w in
  fst r ≠ Pending → fst r = Return tt ∧ semaphore (snd r) = semaphore w.
Proof.
  intros r Hends. split.
  { pose proof (download_and_store_never_raises base self session fuel url_tuple w) as Hraise.
    fold r in Hraise. destruct (fst r) as [[]|e|]; [done|by destruct (Hraise e)|done]. }
  revert Hends. subst r. unfold download_and_store, try_except, bind.
  destruct (get_filename_asks base self session (fst url_tuple) w)
    as (_ & _ & _ & _ & _ & Hsem & _). cbn zeta in Hsem.
  destruct (get_filename base self session url_tuple.1 w) as [[name|e|] w1];
    cbn [fst snd] in *; [|done..].
  destruct (check_exclude base self name); [|done].
  pose proof (retry_unless_pending (fun w' => semaphore w' = semaphore w) base self
                (download_file_wrapped self session fuel name)) as Hloop.
  specialize (Hloop ltac:(done) ltac:(done)).
  assert (Hattempt : ∀ u W, semaphore W = semaphore w →
            fst (download_file_wrapped self session fuel name u W) ≠ Pending →
            semaphore (snd (download_file_wrapped self session fuel name u W)) = semaphore w).
  { intros u W HW Hend. rewrite <- HW.
    destruct (download_file_wrapped self session fuel name u W) as [o W'] eqn:Hrun.
    by apply (download_file_wrapped_semaphore _ _ _ _ _ _ _ _ Hrun). }
  specialize (Hloop Hattempt fuel (fst url_tuple) w1 Hsem).
  unfold download_file.
  destruct (retry base self fuel _ _ w1) as [[[]|e|] w2]; cbn [fst snd] in *;
    intros Hends; try done; by apply Hloop.
Qed.

Lemma download_and_store_ends_quietly_witness :
  let r := download_and_store some_base (a_downloader 2 false) dead_session 5
             (mkURL "https" "example.com" "/a.jpg", mkURL "https" "example.com" "/album")
             (empty_world 1) in
  fst r = Return tt ∧ semaphore (snd r) = 1%nat.
Proof.
  apply (download_and_store_ends_quietly some_base (a_downloader 2 false) dead_session 5
           (mkURL "https" "example.com" "/a.jpg", mkURL "https" "example.com" "/album")
           (empty_world 1)).
  vm_compute. discriminate.
Defined.

Lemma attempts_made_asks url throttle evs :
  evs = [] ∨ evs = [EvGetFilename url throttle]
  ∨ evs = [EvGetFilename url throttle; EvGetContentType url throttle] →
  attempts_made evs = 0%nat ∧ transfers_made evs = 0%nat.
Proof. by intros [->|[->| ->]]. Qed.

(** A link that the exclusion test refuses, or for which no filename
    can be found, ends in [download_and_store] after the queries of
    [get_filename]: [download_file] is not called, so there is no
    attempt and no transfer, and the lock table, the ledger, the
    folder and the attempt counters are as before. *)
Theorem download_and_store_skips_a_refused_link base self session fuel url referral w :
  (∀ name, fst (get_filename base self session url w) = Return name →
           check_exclude base self name = false) →
  let r := download_and_store base self session fuel (url, referral) w in
  fst r = Return tt
  ∧ attempts_made (trace (snd r)) = attempts_made (trace w)
  ∧ transfers_made (trace (snd r)) = transfers_made (trace w)
  ∧ locks (snd r) = locks w ∧ ledger (snd r) = ledger w ∧ files (snd r) = files w
  ∧ current_attempt (snd r) = current_attempt w.
Proof.
  intros Hrefused.
  destruct (get_filename_asks base self session url w)
    as ((evs & Htrace & _ & Hevs) & Hlocks & Hledger & Hfiles & Hcount & _ & _).
  apply attempts_made_asks in Hevs as [Hattempts Htransfers].
  cbn zeta in *. unfold download_and_store. cbn [fst]. unfold try_except, bind.
  assert (fst (get_filename base self session url w) ≠ Pending) as Hends.
  { destruct w as [lk lg tm fs ca sem ck tr].
    cbv beta iota zeta delta
      [get_filename except_failure ask_filename ask_content_type
       bind ret raise try_except tick log clock]; cbn [fst snd].
    repeat (split_branch;
            cbv beta iota zeta delta [bind ret raise try_except tick log clock];
            cbn [fst snd]).
    all: done. }
  destruct (get_filename base self session url w) as [[name|e|] w1]; cbn [fst snd] in *;
    [rewrite (Hrefused name eq_refl)| |done].
  all: cbv beta iota zeta delta [ret]; cbn [fst snd].
  all: rewrite Htrace, attempts_made_app, transfers_made_app.
  all: repeat split; try done; lia.
Qed.

Lemma download_and_store_skips_a_refused_link_witness :
  let r := download_and_store some_base
             (Downloader_init (mkAlbum []) "album" 1 (mkExcludes false true false false)
                              (mkClient 0) (mkRuntimeArgs 3 false false))
             (good_session 10) 5
             (mkURL "https" "example.com" "/a.jpg", mkURL "https" "example.com" "/album")
             (empty_world 1) in
  fst r = Return tt ∧ attempts_made (trace (snd r)) = 0%nat.
Proof.
  destruct (download_and_store_skips_a_refused_link some_base
              (Downloader_init (mkAlbum []) "album" 1 (mkExcludes false true false false)
                               (mkClient 0) (mkRuntimeArgs 3 false false))
              (good_session 10) 5
              (mkURL "https" "example.com" "/a.jpg") (mkURL "https" "example.com" "/album")
              (empty_world 1)) as (Hret & Hattempts & _).
  - intros name Hname. vm_compute in Hname. injection Hname as <-. by vm_compute.
  - split; [exact Hret|exact Hattempts].
Defined.

(** ** A second run *)

(** The record that a finished download leaves is the record that the
    next run looks up: after the run of a link seen for the first
    time, [download_file] for the same URL, under whatever name and
    with whatever session, returns at line 95; it adds its attempt to
    the trace, and touches neither the lock table nor the folder nor
    the session. *)
Theorem download_file_twice base self session fuel url filename w path size
    session' fuel' filename' :
  normalized_path url = Some path →
  completed_in (ledger w) path = false →
  semaphore w ≠ 0%nat → mark_downloaded self = false →
  filename ∉ locks w →
  files w !! filename = None → files w !! part_file filename = None →
  session_download_file session (clock w) url = mkTransfer (Some size) None →
  let w1 := snd (download_file base self session fuel url filename w) in
  download_file base self session' fuel' url filename' w1
  = (Return tt, set_current_attempt (init_counter (url_str url)) (log (EvAttempt url) w1)).
Proof.
  intros Hpath Hnew Hsem Hmark Hfree Hfile Hpart Hsession w1.
  apply download_file_of_completed_path with path; [done|].
  subst w1. rewrite (download_file_fresh_run _ _ _ _ _ _ _ path size) by done.
  cbn [snd]. unfold completed_in.
  cbv beta iota zeta delta [log set_locks set_ledger ledger].
  by rewrite lookup_insert_eq.
Qed.

Lemma download_file_twice_witness :
  let w1 := snd (download_file some_base (a_downloader 3 false) (good_session 10) 5
                   (mkURL "https" "example.com" "/a.jpg") "a.jpg" (empty_world 1)) in
  download_file some_base (a_downloader 3 false) dead_session 0
                (mkURL "https" "example.com" "/a.jpg") "b.jpg" w1
  = (Return tt,
     set_current_attempt (init_counter "https://example.com/a.jpg")
       (log (EvAttempt (mkURL "https" "example.com" "/a.jpg")) w1)).
Proof.
  by apply (download_file_twice some_base (a_downloader 3 false) (good_session 10) 5
              (mkURL "https" "example.com" "/a.jpg") "a.jpg" (empty_world 1) "/a.jpg" 10).
Defined.

(** ** The attempt counters *)

Lemma locked_section_counters self session fuel url db_path throttle filename w :
  current_attempt (snd (locked_section self session fuel url db_path throttle filename w))
  = current_attempt w.
Proof.
  destruct w as [lk lg tm fs ca sem ck tr]. run_coroutine. all: reflexivity.
Qed.

Lemma rename_file_counters name db_path w :
  current_attempt (snd (rename_file name db_path w)) = current_attempt w.
Proof.
  destruct w as [lk lg tm fs ca sem ck tr]. run_coroutine. all: reflexivity.
Qed.

Lemma on_failure_counters url name e w :
  current_attempt (snd (on_failure url name e w)) = current_attempt w.
Proof.
  destruct w as [lk lg tm fs ca sem ck tr]. run_coroutine. all: reflexivity.
Qed.

(** Lines 79-80 make the lookup of the decorator safe: however an
    attempt of [download_file] ends, the counters are those it found
    with the counter of its URL set up (at 0 if the URL had none), so
    the URL has a counter when the decorator reads it at line 29. *)
Theorem download_file_wrapped_sets_the_counter self session fuel filename url w :
  let w' := snd (download_file_wrapped self session fuel filename url w) in
  current_attempt w' = init_counter (url_str url) (current_attempt w)
  ∧ is_Some (current_attempt w' !! url_str url).
Proof.
  assert (Hsome : is_Some (init_counter (url_str url) (current_attempt w) !! url_str url)).
  { unfold init_counter. destruct (current_attempt w !! url_str url) eqn:E; [by rewrite E|].
    by rewrite lookup_insert_eq. }
  cut (current_attempt (snd (download_file_wrapped self session fuel filename url w))
       = init_counter (url_str url) (current_attempt w)).
  { intros H. cbn zeta. by rewrite H. }
  unfold download_file_wrapped, init_attempt.
  unfold bind at 1. unfold modify at 1.
  set (w0 := set_current_attempt _ w).
  assert (H0 : current_attempt w0 = init_counter (url_str url) (current_attempt w)) by done.
  clearbody w0.
  unfold bind at 1. unfold db_path_of.
  destruct (normalized_path url) as [db_path|]; [|done].
  unfold ret at 1. unfold bind at 1, sql_check_existing, get.
  destruct (completed_in (ledger w0) db_path); [done|].
  unfold try_except, bind at 1, with_semaphore.
  destruct (semaphore w0) as [|permits] eqn:Hsem; [done|].
  unfold finally.
  pose proof (locked_section_counters self session fuel url db_path
                (client_throttle (client self)) filename
                (set_semaphore (λ _, permits) w0)) as H2.
  destruct (locked_section self session fuel url db_path _ filename _)
    as [[[name|]|e0|] w2]; cbn [fst snd current_attempt set_semaphore] in *;
    [| cbn; congruence | | congruence].
  - unfold bind at 1.
    pose proof (rename_file_counters name db_path (set_semaphore S w2)) as H4.
    destruct (rename_file name db_path (set_semaphore S w2)) as [[[]|e1|] w4];
      cbn [fst snd current_attempt set_semaphore] in *; [cbn; congruence| |congruence].
    destruct (caught_by_download_file e1); [|cbn; congruence].
    rewrite on_failure_counters. congruence.
  - destruct (caught_by_download_file e0); [|cbn; congruence].
    rewrite on_failure_counters. cbn. congruence.
Qed.

(** ** A transfer that fails every time *)

Lemma attempts_made_snoc t ev :
  attempts_made (t ++ [ev]) = (attempts_made t + if is_attempt ev then 1 else 0)%nat.
Proof. rewrite attempts_made_app. by destruct ev. Qed.

Lemma on_failure_eq url name e w :
  on_failure url name e w
  = (if dropped_quietly url e then Return tt else Raise (FailureException 1),
     log (EvRemoveLock name) (set_locks (fun l => l ∖ {[name]}) w)).
Proof.
  unfold on_failure, dropped_quietly, remove_lock, bind, modify, ret, raise.
  destruct (exn_code e) as [code|]; [|done].
  destruct ((400 <=? code) && (code <? 500) && negb (code =? 429))%bool; [|done].
  by destruct (Str.contains "media-files.bunkr" (host url)).
Qed.

Lemma locked_section_transfer self session fuel url db_path throttle filename w resume wr rs :
  mark_downloaded self = false →
  filename ∉ locks w →
  files w !! filename = None → files w !! part_file filename = resume →
  (is_Some resume → ledger w !! db_path = Some (filename, false) ∧ filename ≠ "") →
  session_download_file session (clock w) url = mkTransfer wr rs →
  locked_section self session fuel url db_path throttle filename w
  = (match rs with Some e => Raise e | None => Return (Some filename) end,
     after_transfer self url db_path throttle filename resume wr w).
Proof.
  intros Hmark Hfree Hfile Hpart Hrecord Hsession. destruct resume as [n|].
  - destruct Hrecord as [Hrecord Hname]; [done|].
    by apply locked_section_resume with false.
  - by apply locked_section_fresh.
Qed.

Lemma download_file_wrapped_transfer self session fuel filename url w path resume wr rs :
  normalized_path url = Some path → completed_in (ledger w) path = false →
  semaphore w ≠ 0%nat → mark_downloaded self = false →
  filename ∉ locks w →
  files w !! filename = None → files w !! part_file filename = resume →
  (is_Some resume → ledger w !! path = Some (filename, false) ∧ filename ≠ "") →
  session_download_file session (clock w) url = mkTransfer wr rs →
  let w' := after_transfer self url path (client_throttle (client self)) filename resume wr
              (set_current_attempt (init_counter (url_str url)) w) in
  download_file_wrapped self session fuel filename url w
  = match rs with
    | None => (rename_file filename path;; remove_lock filename) w'
    | Some e => (if caught_by_download_file e then on_failure url filename e else raise e) w'
    end.
Proof.
  intros Hpath Hnew Hsem Hmark Hfree Hfile Hpart Hrecord Hsession w'.
  destruct (semaphore w) as [|permits] eqn:Hpermits; [done|].
  unfold download_file_wrapped, init_attempt, db_path_of, sql_check_existing.
  rewrite Hpath. unfold bind at 1, modify at 1. unfold bind at 1, ret at 1.
  unfold bind at 1, get at 1. cbn [ledger set_current_attempt]. rewrite Hnew.
  unfold try_except, bind at 1, with_semaphore. cbn [semaphore set_current_attempt].
  rewrite Hpermits. unfold finally.
  rewrite (locked_section_transfer _ _ _ _ _ _ _ _ resume wr rs) by done.
  subst w'. destruct w as [lk lg tm fs ca sem ck tr]. cbn [semaphore] in Hpermits. subst sem.
  destruct rs as [e|], wr; try reflexivity.
  all: unfold after_transfer; run_coroutine; reflexivity.
Qed.

Section FailingTransfers.
Context (self : Downloader) (session : DownloadSession) (fuel : nat).
Context (url : URL) (filename path : string).
Hypothesis at_path : normalized_path url = Some path.
Hypothesis fetching : mark_downloaded self = false.
Hypothesis named : filename ≠ "".
Hypothesis transfers_fail :
  ∀ t, ∃ wr e, session_download_file session t url = mkTransfer wr (Some e)
               ∧ caught_by_download_file e = true ∧ dropped_quietly url e = false.

Lemma failing_attempt w :
  between_attempts filename path w →
  ∃ w', download_file_wrapped self session fuel filename url w
        = (Raise (FailureException 1), w')
        ∧ (between_attempts filename path w'
           ∧ ledger w' !! path = Some (filename, false))
        ∧ current_attempt w' !! url_str url
          = Some (default 0 (current_attempt w !! url_str url))
        ∧ attempts_made (trace w') = attempts_made (trace w)
        ∧ transfers_made (trace w') = S (transfers_made (trace w)).
Proof.
  intros (Hsem & Hfree & Hfile & Hrecord).
  destruct (transfers_fail (clock w)) as (wr & e & Hsession & Hcaught & Hraise).
  assert (Hnew : completed_in (ledger w) path = false).
  { unfold completed_in. by destruct Hrecord as [[-> _]| ->]. }
  assert (Hresume : is_Some (files w !! part_file filename) →
                    ledger w !! path = Some (filename, false) ∧ filename ≠ "").
  { intros [n Hn]. destruct Hrecord as [[_ Hpart]|Hrecord]; [congruence|done]. }
  pose proof (download_file_wrapped_transfer self session fuel filename url w path
                (files w !! part_file filename) wr (Some e)
                at_path Hnew Hsem fetching Hfree Hfile eq_refl Hresume Hsession) as Hrun.
  cbv beta iota zeta in Hrun. rewrite Hcaught, on_failure_eq, Hraise in Hrun.
  eexists. split; [exact Hrun|].
  pose proof (part_file_ne filename) as Hne.
  destruct w as [lk lg tm fs ca sem ck tr].
  cbn [locks ledger files semaphore trace current_attempt] in *.
  unfold between_attempts.
  cbv beta iota zeta delta
    [after_transfer log tick set_locks set_ledger set_temp_markers set_files
     set_current_attempt locks ledger temp_markers files current_attempt semaphore
     clock trace].
  assert (Hpending : insert_record path filename false lg !! path = Some (filename, false)).
  { unfold insert_record.
    destruct Hrecord as [[E _]|E]; rewrite E; [apply lookup_insert_eq|done]. }
  assert (Hreleased : filename ∉ ({[filename]} ∪ lk) ∖ {[filename]}).
  { rewrite elem_of_difference, elem_of_singleton. tauto. }
  destruct wr; cbn [locks ledger files semaphore trace current_attempt].
  all: split;
    [split; [|done];
     split; [done|]; split; [done|]; split; [by rewrite ?lookup_insert_ne|by right]|].
  all: split; [unfold init_counter;
               destruct (ca !! url_str url) eqn:E; rewrite ?E, ?lookup_insert_eq; done|].
  all: rewrite !attempts_made_snoc, !transfers_made_snoc; cbn [is_attempt is_transfer]; lia.
Qed.
End FailingTransfers.

Section RetryFailsForGood.
Context {A : Type} (base : BaseFunctions) (self : Downloader) (f : URL → M A) (url : URL).
Context (I Q : World → Prop) (m : World → nat) (c0 : Z).

Hypothesis limit : disable_attempt_limit self = false.
Hypothesis kept : mirror base url = url.
Hypothesis I_log : ∀ w, I w → I (log (EvAttempt url) w).
Hypothesis Q_count : ∀ w g, Q w → I (set_current_attempt g w).
Hypothesis m_log : ∀ w, m (log (EvAttempt url) w) = m w.
Hypothesis m_count : ∀ w g, m (set_current_attempt g w) = m w.
Hypothesis fails : ∀ w, I w →
  ∃ w', f url w = (Raise (FailureException c0), w') ∧ Q w'
        ∧ current_attempt w' !! url_str url
          = Some (default 0 (current_attempt w !! url_str url))
        ∧ attempts_made (trace w') = attempts_made (trace w)
        ∧ m w' = S (m w).

Lemma retry_fails_for_good (r : nat) : ∀ fuel w,
  I w → (r ≤ fuel)%nat →
  default 0 (current_attempt w !! url_str url) + Z.of_nat r = attempts self - 1 →
  ∃ w', retry base self fuel f url w = (Raise (FailureException c0), w')
        ∧ Q w'
        ∧ attempts_made (trace w') = (attempts_made (trace w) + S r)%nat
        ∧ m w' = (m w + S r)%nat.
Proof.
  induction r as [|r IH]; intros fuel w Hw Hfuel Hr.
  - destruct (fails (log (EvAttempt url) w)) as (w1 & Hf & Hw1 & Hn & Htr & Hm);
      [by apply I_log|].
    exists w1. rewrite (retry_gives_up _ _ _ _ _ _ _ _ _ Hf Hn limit).
    + split; [done|]. split; [done|]. split.
      * rewrite Htr, attempts_made_log. cbn. lia.
      * rewrite Hm, m_log. lia.
    + cbn. lia.
  - destruct (fails (log (EvAttempt url) w)) as (w1 & Hf & Hw1 & Hn & Htr & Hm);
      [by apply I_log|].
    destruct fuel as [|fuel]; [lia|].
    rewrite (retry_again _ _ _ _ _ _ _ _ _ Hf Hn) by (right; cbn; lia).
    rewrite kept.
    destruct (IH fuel (set_current_attempt
                         (λ a, <[url_str url := default 0 (current_attempt w !! url_str url) + 1]> a)
                         w1))
      as (w' & Hretry & Hw' & Htr' & Hm'); [by apply Q_count|lia| |].
    + cbn. rewrite lookup_insert_eq. cbn. lia.
    + exists w'. split; [exact Hretry|]. split; [done|]. split.
      * rewrite Htr'. cbn [trace set_current_attempt]. rewrite Htr, attempts_made_log. cbn. lia.
      * rewrite Hm', m_count, Hm, m_log. lia.
Qed.
End RetryFailsForGood.

(** A link seen for the first time on a URL that the heuristic keeps,
    with a session whose transfers of that URL all end in an error
    that the except clause turns into [FailureException(1)]: with the
    attempt limit on, [download_file] calls the session for a
    transfer exactly [attempts] times, once per attempt, and then
    raises [FailureException(1)]; the lock is free at that point and
    the path is pending in the ledger under the name. *)
Theorem download_file_attempt_ceiling base self session fuel url filename w path :
  disable_attempt_limit self = false → mirror base url = url →
  1 ≤ attempts self → (Z.to_nat (attempts self - 1) ≤ fuel)%nat →
  normalized_path url = Some path → mark_downloaded self = false → filename ≠ "" →
  (∀ t, ∃ wr e, session_download_file session t url = mkTransfer wr (Some e)
                ∧ caught_by_download_file e = true ∧ dropped_quietly url e = false) →
  semaphore w ≠ 0%nat → filename ∉ locks w → files w !! filename = None →
  files w !! part_file filename = None → ledger w !! path = None →
  current_attempt w !! url_str url = None →
  let r := download_file base self session fuel url filename w in
  fst r = Raise (FailureException 1)
  ∧ attempts_made (trace (snd r)) = (attempts_made (trace w) + Z.to_nat (attempts self))%nat
  ∧ transfers_made (trace (snd r)) = (transfers_made (trace w) + Z.to_nat (attempts self))%nat
  ∧ (filename ∉ locks (snd r))
  ∧ ledger (snd r) !! path = Some (filename, false).
Proof.
  intros Hlimit Hkept Hattempts Hfuel Hpath Hmark Hname Hfail Hsem Hfree Hfile Hpart Hnew
    Hcount r.
  destruct (retry_fails_for_good base self (download_file_wrapped self session fuel filename)
              url (between_attempts filename path)
              (fun W => between_attempts filename path W
                        ∧ ledger W !! path = Some (filename, false))
              (fun W => transfers_made (trace W)) 1
              Hlimit Hkept) with
    (r := Z.to_nat (attempts self - 1)) (fuel := fuel) (w := w)
    as (w' & Hrun & Hw' & Htrace & Htransfers).
  - by intros W HW.
  - by intros W g [HW _].
  - intros W. unfold log; cbn [trace]. rewrite transfers_made_snoc. cbn. lia.
  - done.
  - intros W HW.
    destruct (failing_attempt self session fuel url filename path Hpath Hmark Hname Hfail W HW)
      as (W' & Hrun & HW' & Hc & Ha & Ht).
    by exists W'.
  - repeat split; try done. by left.
  - done.
  - rewrite Hcount. cbn. lia.
  - subst r. unfold download_file. rewrite Hrun. cbn [fst snd].
    destruct Hw' as ((_ & Hfree' & _) & Hrecord).
    split; [done|]. split; [rewrite Htrace; lia|]. split; [rewrite Htransfers; lia|]. done.
Qed.

Lemma download_file_attempt_ceiling_witness :
  let r := download_file some_base (a_downloader 3 false) dead_session 2
                         (mkURL "https" "example.com" "/a.jpg") "a.jpg" (empty_world 1) in
  fst r = Raise (FailureException 1)
  ∧ attempts_made (trace (snd r)) = 3%nat
  ∧ transfers_made (trace (snd r)) = 3%nat.
Proof.
  destruct (download_file_attempt_ceiling some_base (a_downloader 3 false) dead_session 2
              (mkURL "https" "example.com" "/a.jpg") "a.jpg" (empty_world 1) "/a.jpg")
    as (Hret & Hattempts & Htransfers & _).
  - reflexivity.
  - by vm_compute.
  - by vm_compute.
  - vm_compute. lia.
  - by vm_compute.
  - reflexivity.
  - done.
  - intros t. by exists None, (ClientError None).
  - done.
  - apply not_elem_of_empty.
  - reflexivity.
  - reflexivity.
  - reflexivity.
  - reflexivity.
  - cbv zeta. rewrite Hattempts, Htransfers. split; [exact Hret|]. split; reflexivity.
Defined.

(** ** The delay table *)

(** Every downloader carries the delay table of [__init__].  On a host
    that contains cyberfile.is or anonfiles.com the transfer is
    throttled at the table's 1, whatever the throttle of the client
    (line 151 assigns), while the queries of [get_filename] take the
    larger of the two (line 214 compares first); on every other host
    both use the throttle of the client. *)
Theorem throttles_of_a_delayed_host album title max_workers excludes client runtime_args
    url throttle :
  let self := Downloader_init album title max_workers excludes client runtime_args in
  let delayed := (Str.contains "cyberfile.is" (host url)
                  || Str.contains "anonfiles.com" (host url))%bool in
  host_throttle self url throttle = (if delayed then 1 else throttle)
  ∧ slowest_throttle self url throttle = (if delayed then Z.max throttle 1 else throttle).
Proof.
  unfold host_throttle, slowest_throttle, Downloader_init. cbn [delay fold_left fst snd].
  destruct (Str.contains "cyberfile.is" (host url)),
           (Str.contains "anonfiles.com" (host url)); cbn [orb andb];
    repeat case_match;
    repeat match goal with
           | H : (_ <? _) = true |- _ => apply Z.ltb_lt in H
           | H : (_ <? _) = false |- _ => apply Z.ltb_ge in H
           end;
    split; lia.
Qed.
